(** * The detection criterion of [loss/torch/detection_loss.py]

    A shallow embedding of [v8DetectionLoss] and [BboxLoss].

    Conventions of the embedding.
    - A tensor is a nested list; a tensor whose row count may be zero carries
      its row width next to the rows ([tensor2]), because the code reads the
      width off [targets.shape] even when there is no row.
    - Floating-point numbers are modelled by exact numbers: the reals [R] for
      the loss formulas (they need [exp], [ln] and [sqrt]), and any ordered
      score type ([Score], instantiated on [Q] and on [R]) for the top-k
      selection, which only compares scores and multiplies them by a 0/1
      mask.  Rounding, overflow and NaN are outside the model.
    - Python exceptions are values of [exn]; a computation that can raise
      returns [result A].
    - Primitives of other packages ([torch.topk] with its unspecified tie
      order, [bbox_iou], [DFLoss], [xywh2xyxy], [bbox2dist]) and of modules
      of this repository that are not part of the file ([TaskAlignedAssigner],
      [dist2bbox], [kd_loss], [rkd_loss]) are section variables. *)

From Stdlib Require Import String List Bool Arith ZArith QArith Reals Lra Lia.
Import ListNotations.

Set Implicit Arguments.

(** ** Python exceptions *)

Inductive exn : Type :=
| UnboundLocalError (name : string)
| RuntimeError (msg : string)
| IndexError (msg : string).

Definition result (A : Type) : Type := (exn + A)%type.

Definition ok {A} (a : A) : result A := inr a.
Definition raise {A} (e : exn) : result A := inl e.

Definition bind {A B} (c : result A) (k : A -> result B) : result B :=
  match c with
  | inl e => inl e
  | inr a => k a
  end.

Declare Scope py_scope.
Delimit Scope py_scope with py.
Notation "x <- c ;; k" := (bind c (fun x => k))
  (at level 61, c at next level, right associativity) : py_scope.

(** Reading a local variable: [None] is a name that no executed statement has
    bound yet. *)
Definition load_local {A} (name : string) (v : option A) : result A :=
  match v with
  | Some a => ok a
  | None => raise (UnboundLocalError name)
  end.

(** ** Tensors as nested lists *)

Definition map2 {A B C} (f : A -> B -> C) (xs : list A) (ys : list B) : list C :=
  map (fun p => f (fst p) (snd p)) (combine xs ys).

(** [x[mask]] for a boolean mask over the leading dimension(s): the selected
    entries, in row-major order. *)
Definition mask_select1 {A} (mask : list bool) (xs : list A) : list A :=
  map snd (filter fst (combine mask xs)).

Definition mask_select {A} (mask : list (list bool)) (xs : list (list A)) : list A :=
  concat (map2 (@mask_select1 A) mask xs).

(** [mask.sum()] *)
Definition count_true (mask : list bool) : nat :=
  length (filter (fun b => b) mask).

Definition mask_sum (mask : list (list bool)) : nat :=
  fold_right Nat.add 0%nat (map count_true mask).

(** [torch.zeros_like(mask).bool()] *)
Definition zeros_like (mask : list (list bool)) : list (list bool) :=
  map (map (fun _ => false)) mask.

(** A (b, a) tensor. *)
Definition shaped {A : Type} (b a : nat) (t : list (list A)) : Prop :=
  length t = b /\ Forall (fun r => length r = a) t.

(** ** Scores

    What the selection of lines 177-185 needs of the score type: the constants
    0 and 1 a boolean mask is promoted to, the product, and the strict
    order [torch.topk] ranks by. *)

Class Score (T : Type) : Type := {
  s_zero : T;
  s_one : T;
  s_mul : T -> T -> T;
  s_ltb : T -> T -> bool
}.

(** The order is a strict weak order, and multiplying by the promoted mask
    keeps the sign of a kept score and makes a dropped one non-positive. *)
Class ScoreLaws (T : Type) `{Score T} : Prop := {
  s_ltb_asym : forall a b, s_ltb a b = true -> s_ltb b a = false;
  s_ltb_negtrans :
    forall a b c, s_ltb a b = false -> s_ltb b c = false -> s_ltb a c = false;
  s_mul_one_pos : forall a, s_ltb s_zero (s_mul a s_one) = s_ltb s_zero a;
  s_mul_zero_pos : forall a, s_ltb s_zero (s_mul a s_zero) = false
}.
Arguments ScoreLaws T {_}.

#[export] Instance Score_Q : Score Q := {
  s_zero := 0%Q;
  s_one := 1%Q;
  s_mul := Qmult;
  s_ltb := fun a b => negb (Qle_bool b a)
}.

Definition Rltb (a b : R) : bool := if Rlt_dec a b then true else false.

#[export] Instance Score_R : Score R := {
  s_zero := 0%R;
  s_one := 1%R;
  s_mul := Rmult;
  s_ltb := Rltb
}.

(** ** EmbeddingSelector: lines 177-185 of [__call__] *)

Section Selector.
Context {T : Type} `{Score T}.

(** The indices [torch.topk(v, k)] returns when [k <= len(v)].  Which of
    several equal scores it returns is not specified by torch, so the
    selection is stated for any function that meets [topk_ok] below. *)
Variable topk_idx : list T -> nat -> list nat.

(** A boolean tensor promoted to the score type by [*]. *)
Definition of_bool (b : bool) : T := if b then s_one else s_zero.

(** [target_gt_idx[batch_index] == instance_id] *)
Definition instance_mask (row : list Z) (instance_id : Z) : list bool :=
  map (fun g => Z.eqb g instance_id) row.

(** [iou_cls_scores[batch_index] * instance_mask] *)
Definition masked_scores (scores : list T) (m : list bool) : list T :=
  map2 (fun s b => s_mul s (of_bool b)) scores m.

(** [torch.topk(v, k)]: raises when [k] exceeds the length. *)
Definition torch_topk (v : list T) (k : nat) : result (list nat) :=
  if (k <=? length v)%nat then ok (topk_idx v k)
  else raise (RuntimeError "selected index k out of range").

(** [mask[i] = True] *)
Fixpoint set_true (mask : list bool) (i : nat) : list bool :=
  match mask, i with
  | [], _ => []
  | _ :: m, O => true :: m
  | b :: m, S i' => b :: set_true m i'
  end.

(** [embed_mask[batch_index][topk_idx] = True] *)
Definition index_put_true (mask : list bool) (idxs : list nat) : list bool :=
  fold_left set_true idxs mask.

(** The inner loop, over the values of [torch.unique(target_gt_idx[b])]. *)
Fixpoint select_instances (scores : list T) (row : list Z) (k : nat)
         (ids : list Z) (mask : list bool) : result (list bool) :=
  match ids with
  | [] => ok mask
  | instance_id :: rest =>
      (idxs <- torch_topk (masked_scores scores (instance_mask row instance_id)) k ;;
       select_instances scores row k rest (index_put_true mask idxs))%py
  end.
End Selector.

(** [torch.unique] of a 1-D integer tensor: the distinct values, ascending. *)
Fixpoint insert_unique (z : Z) (l : list Z) : list Z :=
  match l with
  | [] => [z]
  | y :: l' =>
      if (z <? y)%Z then z :: l
      else if (z =? y)%Z then l
      else y :: insert_unique z l'
  end.

Definition unique (row : list Z) : list Z := fold_right insert_unique [] row.

Section SelectorLoop.
Context {T : Type} `{Score T}.
Variable topk_idx : list T -> nat -> list nat.

(** The outer loop, [for batch_index in range(target_gt_idx.shape[0])]:
    it indexes [iou_cls_scores] and [embed_mask] by the same
    [batch_index]. *)
Fixpoint embed_select (iou_cls_scores : list (list T))
         (target_gt_idx : list (list Z)) (embed_topk : nat)
         (embed_mask : list (list bool)) {struct target_gt_idx}
  : result (list (list bool)) :=
  match target_gt_idx with
  | [] => ok embed_mask
  | row :: rows =>
      match iou_cls_scores, embed_mask with
      | scores :: scores', m :: ms =>
          (m' <- select_instances topk_idx scores row embed_topk (unique row) m ;;
           ms' <- embed_select scores' rows embed_topk ms ;;
           ok (m' :: ms'))%py
      | _, _ => raise (IndexError "index out of range")
      end
  end.
End SelectorLoop.

(** A concrete [torch.topk]: [k] rounds of arg-max over the positions not yet
    taken, the lowest position winning among equal scores. *)
Section TopkStable.
Context {T : Type} `{Score T}.

Fixpoint argmax_from (v : list T) (best : nat) (cands : list nat) : nat :=
  match cands with
  | [] => best
  | c :: cs =>
      if s_ltb (nth best v s_zero) (nth c v s_zero)
      then argmax_from v c cs
      else argmax_from v best cs
  end.

Fixpoint topk_rounds (v : list T) (remaining : list nat) (k : nat) : list nat :=
  match k with
  | O => []
  | S k' =>
      match remaining with
      | [] => []
      | r :: rs =>
          let b := argmax_from v r rs in
          b :: topk_rounds v (remove Nat.eq_dec b remaining) k'
      end
  end.

Definition topk_stable (v : list T) (k : nat) : list nat :=
  topk_rounds v (seq 0 (length v)) k.
End TopkStable.

(** ** Real-valued tensors *)

Local Open Scope R_scope.

(** [x.sum()] *)
Definition Rsum (l : list R) : R := fold_right Rplus 0 l.
Definition Rsum2 (t : list (list R)) : R := Rsum (map Rsum t).
Definition Rsum3 (t : list (list (list R))) : R := Rsum (map Rsum2 t).

(** Python's builtin [max(a, b)]: the first argument unless the second is
    greater. *)
Definition py_max (a b : R) : R := if Rlt_dec a b then b else a.

(** A 2-D tensor that may have no row: [shape = (len(rows), cols)]. *)
Record tensor2 : Type := Tensor2 {
  t2_cols : nat;
  t2_rows : list (list R)
}.

(** A 3-D tensor with its shape. *)
Record tensor3 : Type := Tensor3 {
  t3_shape : nat * nat * nat;
  t3_data : list (list (list R))
}.

(** [torch.zeros(b, n, w)] with [w] a Python integer: a negative dimension
    is refused. *)
Definition torch_zeros (b n : nat) (w : Z) : result tensor3 :=
  if (w <? 0)%Z
  then raise (RuntimeError "Trying to create tensor with negative dimension")
  else ok (Tensor3 (b, n, Z.to_nat w)
                   (repeat (repeat (repeat 0 (Z.to_nat w)) n) b)).

(** [torch.sigmoid] and [nn.BCEWithLogitsLoss(reduction="none")], element by
    element. *)
Definition sigmoid (x : R) : R := 1 / (1 + exp (- x)).

Definition bce_with_logits (x y : R) : R :=
  - (y * ln (sigmoid x) + (1 - y) * ln (1 - sigmoid x)).

(** [v.norm(2)] *)
Definition l2_norm (v : list R) : R := sqrt (Rsum (map (fun x => x * x) v)).

(** [v.softmax(-1)] *)
Definition softmax (v : list R) : list R :=
  map (fun x => exp x / Rsum (map exp v)) v.

(** [self.proj = torch.arange(reg_max, dtype=torch.float)] *)
Definition proj (reg_max : nat) : list R := map INR (seq 0 reg_max).

(** [p.matmul(w)] of two vectors *)
Definition matmul (p w : list R) : R := Rsum (map2 Rmult p w).

(** Equality test of two floats, as in [i == j]. *)
Definition Reqb (x y : R) : bool := if Req_dec_T x y then true else false.

(** ** TargetPreprocessor: [preprocess] and [preprocess_embedding] *)

Section Preprocess.
(** [ultralytics.utils.ops.xywh2xyxy] on one box. *)
Variable xywh2xyxy : list R -> list R.

(** [targets[:, 0]] of one row. *)
Definition image_index (row : list R) : R := nth 0 row 0.

(** [targets[i == j]] *)
Definition matches (rows : list (list R)) (j : nat) : list (list R) :=
  filter (fun r => Reqb (image_index r) (INR j)) rows.

(** [counts.max()] of [i.unique(return_counts=True)]: the largest number of
    rows that share an image index. *)
Definition counts_max (rows : list (list R)) : nat :=
  fold_right Nat.max 0%nat
    (map (fun r => length (filter (fun r' => Reqb (image_index r') (image_index r)) rows))
         rows).

(** [out[j, :n] = targets[matches, 1:]] on the zero block of image [j]. *)
Definition fill_image (n_max w : nat) (rows : list (list R)) : list (list R) :=
  map (@tl R) rows ++ repeat (repeat 0 w) (n_max - length rows).

(** The loop [for j in range(batch_size)]. *)
Definition fill_batch (batch_size n_max w : nat) (rows : list (list R))
  : list (list (list R)) :=
  map (fun j => fill_image n_max w (matches rows j)) (seq 0 batch_size).

(** [out[..., 1:5] = xywh2xyxy(out[..., 1:5].mul_(scale_tensor))] on one row. *)
Definition rescale_row (scale_tensor : list R) (row : list R) : list R :=
  match row with
  | [] => []
  | c :: rest =>
      c :: xywh2xyxy (map2 Rmult (firstn 4 rest) scale_tensor) ++ skipn 4 rest
  end.

Definition preprocess (targets : tensor2) (batch_size : nat) (scale_tensor : list R)
  : result tensor3 :=
  let nl := length (t2_rows targets) in
  let ne := t2_cols targets in
  if (nl =? 0)%nat then
    torch_zeros batch_size 0 (Z.of_nat ne - 1)
  else
    (out <- torch_zeros batch_size (counts_max (t2_rows targets)) (Z.of_nat ne - 1) ;;
     let '(b, n, w) := t3_shape out in
     let filled := fill_batch batch_size n w (t2_rows targets) in
     if (w <? 5)%nat
     then raise (RuntimeError "The size of tensor a must match the size of tensor b")
     else ok (Tensor3 (b, n, w) (map (map (rescale_row scale_tensor)) filled)))%py.

Definition preprocess_embedding (targets : tensor2) (batch_size : nat)
  : result tensor3 :=
  let nl := length (t2_rows targets) in
  let ne := t2_cols targets in
  if (nl =? 0)%nat then
    torch_zeros batch_size 0 (Z.of_nat ne - 1)
  else
    (out <- torch_zeros batch_size (counts_max (t2_rows targets)) (Z.of_nat ne - 1) ;;
     let '(b, n, w) := t3_shape out in
     ok (Tensor3 (b, n, w) (fill_batch batch_size n w (t2_rows targets))))%py.
End Preprocess.

(** ** BoxCodec: [bbox_decode] *)

Section BoxCodec.
(** [utils.tal.dist2bbox(distance, anchor_point, xywh=False)] on one position:
    four distances and an anchor point to a corner-format box. *)
Variable dist2bbox : list R -> list R -> list R.

(** [row.view(4, c // 4)]: four consecutive chunks of [c // 4] entries. *)
Definition view4 (row : list R) : list (list R) :=
  let q := (length row / 4)%nat in
  [ firstn q row;
    firstn q (skipn q row);
    firstn q (skipn (2 * q) row);
    firstn q (skipn (3 * q) row) ].

(** One position of [bbox_decode]; [use_dfl] is [reg_max > 1].  The view and
    the product with [self.proj] are defined when the row has [4 * reg_max]
    entries, which is the shape the criterion is built for. *)
Definition bbox_decode_row (reg_max : nat) (anchor_point pred_dist : list R) : list R :=
  if (1 <? reg_max)%nat
  then dist2bbox (map (fun side => matmul (softmax side) (proj reg_max)) (view4 pred_dist))
                 anchor_point
  else dist2bbox pred_dist anchor_point.

(** [bbox_decode]: [anchor_points] is shared by the images of the batch. *)
Definition bbox_decode (reg_max : nat) (anchor_points : list (list R))
           (pred_dist : list (list (list R))) : list (list (list R)) :=
  map (fun img => map2 (bbox_decode_row reg_max) anchor_points img) pred_dist.
End BoxCodec.




(** ** BboxLossModule: [BboxLoss.forward] *)

Section BboxLoss.
(** [ultralytics.utils.loss.bbox_iou(box1, box2, xywh=False, CIoU=True)] on
    one pair of boxes. *)
Variable bbox_iou : list R -> list R -> R.
(** [ultralytics.utils.loss.bbox2dist(anchor_point, bbox, reg_max - 1)] on one
    position. *)
Variable bbox2dist : list R -> list R -> R -> list R.
(** [DFLoss(reg_max)] on one position: the logits of its four sides and its
    four target distances to one value (the mean over the sides). *)
Variable DFLoss : nat -> list R -> list R -> R.

Definition BboxLoss_forward (reg_max : nat)
           (pred_dist pred_bboxes : list (list (list R)))
           (anchor_points : list (list R))
           (target_bboxes target_scores : list (list (list R)))
           (target_scores_sum : R) (fg_mask : list (list bool))
  : R * R * list (list R) :=
  let weight := mask_select fg_mask (map (map Rsum) target_scores) in
  let iou := map2 (map2 bbox_iou) pred_bboxes target_bboxes in
  let iou_scores := map2 (fun i w => (1 - i) * w) (mask_select fg_mask iou) weight in
  let loss_iou := Rsum iou_scores / target_scores_sum in
  let loss_dfl :=
    if (1 <? reg_max)%nat then
      let target_ltrb :=
        map (fun boxes =>
               map2 (fun a box => bbox2dist a box (INR (reg_max - 1))) anchor_points boxes)
            target_bboxes in
      Rsum (map2 Rmult
              (map2 (DFLoss reg_max) (mask_select fg_mask pred_dist)
                    (mask_select fg_mask target_ltrb))
              weight)
      / target_scores_sum
    else 0 in
  (loss_iou, loss_dfl, iou).
End BboxLoss.

(** The localization loss in the words of the specification: over all
    positions, a foreground position contributes its weight (the sum of its
    target class scores) times one minus its IoU, any other position
    nothing. *)
Definition loss_iou_sum (bbox_iou : list R -> list R -> R) (b a : nat)
           (pred_bboxes target_bboxes target_scores : list (list (list R)))
           (fg_mask : list (list bool)) : R :=
  Rsum (map (fun i =>
    Rsum (map (fun j =>
      if nth j (nth i fg_mask []) false
      then Rsum (nth j (nth i target_scores []) [])
           * (1 - bbox_iou (nth j (nth i pred_bboxes []) [])
                           (nth j (nth i target_bboxes []) []))
      else 0) (seq 0 a))) (seq 0 b)).

(** ** LossAggregator: [__call__] *)

(** [target_scores_sum = max(target_scores.sum(), 1)] *)
Definition target_scores_sum_of (target_scores : list (list (list R))) : R :=
  py_max (Rsum3 target_scores) 1.

(** [self.bce(pred_scores, target_scores).sum() / target_scores_sum] *)
Definition cls_loss (pred_scores target_scores : list (list (list R))) : R :=
  Rsum3 (map2 (map2 (map2 bce_with_logits)) pred_scores target_scores)
  / target_scores_sum_of target_scores.

(** The classification loss in the words of the specification. *)
Definition bce_total (b a nc : nat) (pred_scores target_scores : list (list (list R))) : R :=
  Rsum (map (fun i =>
    Rsum (map (fun j =>
      Rsum (map (fun c =>
        bce_with_logits (nth c (nth j (nth i pred_scores []) []) 0)
                        (nth c (nth j (nth i target_scores []) []) 0))
        (seq 0 nc))) (seq 0 a))) (seq 0 b)).

Definition score_total (b a nc : nat) (target_scores : list (list (list R))) : R :=
  Rsum (map (fun i =>
    Rsum (map (fun j =>
      Rsum (map (fun c => nth c (nth j (nth i target_scores []) []) 0)
        (seq 0 nc))) (seq 0 a))) (seq 0 b)).

(** A (b, a, c) tensor. *)
Definition shaped3 {A : Type} (b a c : nat) (t : list (list (list A))) : Prop :=
  length t = b /\ Forall (shaped a c) t.

(** [pred_embeds / pred_embeds.norm(2, dim=-1, keepdim=True)] on one row. *)
Definition l2_normalize (v : list R) : list R :=
  map (fun x => x / l2_norm v) v.

Definition normalize_embeds (pred_embeds : list (list (list R))) : list (list (list R)) :=
  map (map l2_normalize) pred_embeds.

(** The rows handed to [kd_loss] and [rkd_loss]: [pred_embeds[embed_mask]]
    and [target_embeds[embed_mask]]. *)
Definition embed_loss_inputs (pred_embeds_raw target_embeds : list (list (list R)))
           (embed_mask : list (list bool)) : list (list R) * list (list R) :=
  (mask_select embed_mask (normalize_embeds pred_embeds_raw),
   mask_select embed_mask target_embeds).

(** In the words of the specification: every row on either side has unit
    norm. *)
Definition unit_rows (rows : list (list R)) : Prop :=
  Forall (fun v => l2_norm v = 1) rows.

(** [self.hyp] *)
Record gains : Type := Gains {
  box_gain : R;
  cls_gain : R;
  dfl_gain : R;
  embed_gain : R
}.

(** [batch]: the annotations of all images, one row per instance. *)
Record annotations : Type := Annotations {
  batch_idx : list R;
  cls : list R;
  bboxes : tensor2;
  embedding : tensor2
}.

(** What [self.assigner] returns and [__call__] keeps. *)
Record assignment : Type := Assignment {
  target_bboxes : list (list (list R));
  target_scores : list (list (list R));
  target_embeds : list (list (list R));
  fg_mask : list (list bool);
  target_gt_idx : list (list Z)
}.

(** [torch.cat(tensors, 1)] of 2-D tensors refuses tensors whose row counts
    differ. *)
Definition cat_sizes_error : exn :=
  RuntimeError "Sizes of tensors must match except in dimension 1".

(** [torch.cat((batch["batch_idx"].view(-1, 1), batch["cls"].view(-1, 1),
    batch["bboxes"]), 1)] *)
Definition cat_targets (batch : annotations) : result tensor2 :=
  if ((length (cls batch) =? length (batch_idx batch))
      && (length (t2_rows (bboxes batch)) =? length (batch_idx batch)))%nat
  then ok (Tensor2 (2 + t2_cols (bboxes batch))
                   (map2 (fun ic box => fst ic :: snd ic :: box)
                         (combine (batch_idx batch) (cls batch)) (t2_rows (bboxes batch))))
  else raise cat_sizes_error.

(** [torch.cat((batch["batch_idx"].view(-1, 1), batch["embedding"]), dim=1)] *)
Definition cat_embedding (batch : annotations) : result tensor2 :=
  if (length (t2_rows (embedding batch)) =? length (batch_idx batch))%nat
  then ok (Tensor2 (1 + t2_cols (embedding batch))
                   (map2 (@cons R) (batch_idx batch) (t2_rows (embedding batch))))
  else raise cat_sizes_error.

(** [targets.split((1, 4), 2)]: the sizes have to add up to the width. *)
Definition split_1_4 (targets : tensor3)
  : result (list (list (list R)) * list (list (list R))) :=
  let '(_, _, w) := t3_shape targets in
  if (w =? 5)%nat
  then ok (map (map (firstn 1)) (t3_data targets),
           map (map (skipn 1)) (t3_data targets))
  else raise (RuntimeError "split_with_sizes expects split_sizes to sum exactly to the dimension").

Section Criterion.
Variable xywh2xyxy : list R -> list R.
Variable dist2bbox : list R -> list R -> list R.
Variable bbox_iou : list R -> list R -> R.
Variable bbox2dist : list R -> list R -> R -> list R.
Variable DFLoss : nat -> list R -> list R -> R.
(** [distillation_loss.kd_loss] and [rkd_loss]. *)
Variable kd_loss rkd_loss : list (list R) -> list (list R) -> R.
(** [torch.topk(...).indices] *)
Variable topk_idx : list R -> nat -> list nat.
(** [utils.tal.TaskAlignedAssigner.forward]: predicted scores, boxes and
    embeddings, anchor points, ground-truth labels, boxes and embeddings, and
    the validity mask of the ground truth. *)
Variable assigner :
  list (list (list R)) -> list (list (list R)) -> list (list (list R)) ->
  list (list R) ->
  list (list (list R)) -> list (list (list R)) -> tensor3 -> list (list bool) ->
  assignment.

(** Lines 156-200, from the assignment on. *)
Definition call_after_assignment (hyp : gains) (reg_max : nat)
           (pred_scores pred_distri pred_embeds pred_bboxes : list (list (list R)))
           (anchor_points : list (list R)) (stride_tensor : list R)
           (asg : assignment) (embed_topk : nat)
  : result (R * list R * list (list bool)) :=
  let target_scores_sum := target_scores_sum_of (target_scores asg) in
  let loss1 := cls_loss pred_scores (target_scores asg) in
  let '(loss0, loss2, iou_scores) :=
    if (mask_sum (fg_mask asg) =? 0)%nat then (0, 0, None)
    else
      let target_bboxes' :=
        map (fun boxes => map2 (fun box s => map (fun x => x / s) box) boxes stride_tensor)
            (target_bboxes asg) in
      let '(loss_iou, loss_dfl, iou) :=
        BboxLoss_forward bbox_iou bbox2dist DFLoss reg_max pred_distri pred_bboxes
                         anchor_points target_bboxes' (target_scores asg)
                         target_scores_sum (fg_mask asg) in
      (loss_iou, loss_dfl, Some iou) in
  (iou_scores <- load_local "iou_scores" iou_scores ;;
   let iou_cls_scores :=
     map2 (map2 (fun i scores => Rsum (map (Rmult i) scores)))
          iou_scores (target_scores asg) in
   embed_mask <- embed_select topk_idx iou_cls_scores (target_gt_idx asg) embed_topk
                              (zeros_like (fg_mask asg)) ;;
   let kd := kd_loss (mask_select embed_mask pred_embeds)
                     (mask_select embed_mask (target_embeds asg)) in
   let rkd := rkd_loss (mask_select embed_mask (target_embeds asg))
                       (mask_select embed_mask pred_embeds) in
   let loss3 := kd + rkd in
   let loss := [ loss0 * box_gain hyp; loss1 * cls_gain hyp;
                 loss2 * dfl_gain hyp; loss3 * embed_gain hyp ] in
   ok (Rsum loss, loss, fg_mask asg))%py.

(** [__call__], from the tensors that lines 98-111 cut out of [preds]
    ([pred_scores] (b, a, nc), [pred_distri] (b, a, 4 * reg_max), [pred_embeds]
    (b, a, E)) and from what [make_anchors] returns.  [imgsz] is (h, w). *)
Definition call (hyp : gains) (reg_max : nat)
           (pred_scores pred_distri pred_embeds_raw : list (list (list R)))
           (imgsz : R * R) (anchor_points : list (list R)) (stride_tensor : list R)
           (batch : annotations) (embed_topk : nat)
  : result (R * list R * list (list bool)) :=
  let pred_embeds := normalize_embeds pred_embeds_raw in
  let batch_size := length pred_scores in
  let '(h, w) := imgsz in
  (targets <- cat_targets batch ;;
   targets <- preprocess xywh2xyxy targets batch_size [w; h; w; h] ;;
   targets_embed <- cat_embedding batch ;;
   gt_embeds <- preprocess_embedding targets_embed batch_size ;;
   gt <- split_1_4 targets ;;
   let '(gt_labels, gt_bboxes) := gt in
   let mask_gt := map (map (fun box => Rltb 0 (Rsum box))) gt_bboxes in
   let pred_bboxes := bbox_decode dist2bbox reg_max anchor_points pred_distri in
   let asg :=
     assigner (map (map (map sigmoid)) pred_scores)
              (map (fun boxes => map2 (fun box s => map (fun x => x * s) box)
                                      boxes stride_tensor) pred_bboxes)
              pred_embeds
              (map2 (fun pt s => map (fun x => x * s) pt) anchor_points stride_tensor)
              gt_labels gt_bboxes gt_embeds mask_gt in
   call_after_assignment hyp reg_max pred_scores pred_distri pred_embeds pred_bboxes
                         anchor_points stride_tensor asg embed_topk)%py.
End Criterion.

(** ** What the selection is measured against *)

(** The contract of [torch.topk(v, k).indices] for [k <= len(v)]: [k]
    distinct positions of [v], none of them ranked below a position left
    out. *)
Definition topk_ok {T : Type} `{Score T} (tk : list T -> nat -> list nat) : Prop :=
  forall v k, (k <= length v)%nat ->
    length (tk v k) = k /\
    NoDup (tk v k) /\
    (forall i, In i (tk v k) -> (i < length v)%nat) /\
    (forall i j, In i (tk v k) -> (j < length v)%nat -> ~ In j (tk v k) ->
       s_ltb (nth i v s_zero) (nth j v s_zero) = false).

(** The positions of one image whose [target_gt_idx] is [instance_id]. *)
Definition instance_positions (row : list Z) (instance_id : Z) : list nat :=
  filter (fun p => Z.eqb (nth p row 0%Z) instance_id) (seq 0 (length row)).

(** Those of them whose joint quality score is strictly positive. *)
Definition positive_positions {T : Type} `{Score T}
           (scores : list T) (row : list Z) (instance_id : Z) : list nat :=
  filter (fun p => s_ltb s_zero (nth p scores s_zero)) (instance_positions row instance_id).

(** The positions of an instance that a mask row marks. *)
Definition marked_positions (mask : list bool) (row : list Z) (instance_id : Z) : list nat :=
  filter (fun p => nth p mask false) (instance_positions row instance_id).

(** Position [p] is among the indices [torch.topk] returns in the iteration
    of some value of the image's [target_gt_idx] row. *)
Definition selected_by {T : Type} `{Score T} (tk : list T -> nat -> list nat)
           (k : nat) (scores : list T) (row : list Z) (p : nat) : Prop :=
  exists instance_id,
    In instance_id row /\
    In p (tk (masked_scores scores (instance_mask row instance_id)) k).

(** The assigned foreground positions of an instance. *)
Definition assigned_positions (fg : list bool) (row : list Z) (instance_id : Z) : list nat :=
  filter (fun p => nth p fg false) (instance_positions row instance_id).

(** The selection invariant in the words of the specification, for one image:
    an instance with at least [k] assigned positions has exactly [k] of them
    marked, one with fewer has all of them marked. *)
Definition topk_per_instance (fg : list bool) (row : list Z) (k : nat)
           (mask : list bool) : Prop :=
  forall instance_id, assigned_positions fg row instance_id <> [] ->
    ((k <= length (assigned_positions fg row instance_id))%nat ->
     length (filter (fun p => nth p mask false) (assigned_positions fg row instance_id)) = k) /\
    ((length (assigned_positions fg row instance_id) < k)%nat ->
     forall p, In p (assigned_positions fg row instance_id) -> nth p mask false = true).

Definition selects_topk_per_instance {T : Type} `{Score T}
           (tk : list T -> nat -> list nat) (scores : list (list T))
           (idx : list (list Z)) (fg : list (list bool)) (k : nat) : Prop :=
  forall mask, embed_select tk scores idx k (zeros_like fg) = ok mask ->
  forall b, (b < length idx)%nat ->
    topk_per_instance (nth b fg []) (nth b idx []) k (nth b mask []).

(** In the words of the specification: no background position is selected. *)
Definition selects_only_foreground {T : Type} `{Score T}
           (tk : list T -> nat -> list nat) (scores : list (list T))
           (idx : list (list Z)) (fg : list (list bool)) (k : nat) : Prop :=
  forall mask, embed_select tk scores idx k (zeros_like fg) = ok mask ->
  forall b p, nth p (nth b mask []) false = true -> nth p (nth b fg []) false = true.

(** ** Lines 98-111 of [__call__]: from feature maps to per-position rows

    A feature level is a (b, C, h, w) tensor: per image, per channel, the
    rows of the map. *)

(** [xi.view(b, C, -1)]: every channel of every image as one row-major
    line. *)
Definition view_flat (xi : list (list (list (list R)))) : list (list (list R)) :=
  map (map (@concat R)) xi.

(** [torch.cat(parts, 2)] of (b, C, n) tensors. *)
Definition cat_dim2 (parts : list (list (list (list R)))) : result (list (list (list R))) :=
  match parts with
  | [] => raise (RuntimeError "torch.cat(): expected a non-empty list of Tensors")
  | part :: rest => ok (fold_left (map2 (map2 (@app R))) rest part)
  end.

(** [t.split((n1, n2), 1)]: the sizes have to add up to the channel count. *)
Definition split_dim1 (n1 n2 : nat) (t : list (list (list R)))
  : result (list (list (list R)) * list (list (list R))) :=
  if forallb (fun img => (length img =? n1 + n2)%nat) t
  then ok (map (firstn n1) t, map (skipn n1) t)
  else raise (RuntimeError "split_with_sizes expects split_sizes to sum exactly to the dimension").

(** [t.permute(0, 2, 1)] on one image: (C, A) to (A, C). *)
Definition transpose (img : list (list R)) : list (list R) :=
  map (fun p => map (fun channel => nth p channel 0) img) (seq 0 (length (hd [] img))).

Definition permute_021 (t : list (list (list R))) : list (list (list R)) :=
  map transpose t.

(** Lines 101-105: [pred_distri] and [pred_scores]. *)
Definition flatten_preds (reg_max nc : nat) (feats : list (list (list (list (list R)))))
  : result (list (list (list R)) * list (list (list R))) :=
  (t <- cat_dim2 (map view_flat feats) ;;
   halves <- split_dim1 (reg_max * 4) nc t ;;
   ok (permute_021 (fst halves), permute_021 (snd halves)))%py.

(** Lines 107-111: [pred_embeds] before the normalization. *)
Definition flatten_embeds (pred_embeds : list (list (list (list (list R)))))
  : result (list (list (list R))) :=
  (t <- cat_dim2 (map view_flat pred_embeds) ;; ok (permute_021 t))%py.

(** A (b, C, h, w) tensor. *)
Definition shaped4 (b C h w : nat) (xi : list (list (list (list R)))) : Prop :=
  length xi = b /\ Forall (shaped3 C h w) xi.

(** The position at which the cells of level [l] start: the number of cells
    of the levels before it. *)
Definition level_offset (dims : list (nat * nat)) (l : nat) : nat :=
  fold_right Nat.add 0%nat (map (fun d => (fst d * snd d)%nat) (firstn l dims)).

(** ** Small batches the properties are tried on *)

(** One image, four positions, all foreground: three assigned to instance 1
    and one to instance 2. *)
Definition ex_idx : list (list Z) := [[1; 1; 1; 2]]%Z.
Definition ex_fg : list (list bool) := [[true; true; true; true]].
Definition ex_scores : list (list Q) := [[3; 5; 4; 6]]%Q.

(** The same assignment with the lowest score of instance 1 at each of its
    positions in turn. *)
Definition ex_scores_by_low (low : nat) : list (list Q) :=
  match low with
  | 0%nat => [[3; 5; 4; 6]]%Q
  | 1%nat => [[5; 3; 4; 6]]%Q
  | _ => [[5; 4; 3; 6]]%Q
  end.

(** One image, five positions: two assigned to instance 1, three background
    positions carrying the index -1 and a zero score. *)
Definition bg_idx : list (list Z) := [[1; 1; -1; -1; -1]]%Z.
Definition bg_fg : list (list bool) := [[true; true; false; false; false]].
Definition bg_scores : list (list Q) := [[5; 4; 0; 0; 0]]%Q.

(** A batch without annotations, for one image of two positions, and an
    assigner that leaves every position in the background. *)
Definition empty_batch : annotations :=
  Annotations [] [] (Tensor2 4 []) (Tensor2 2 []).

Definition background_assigner
           (pd_scores pd_bboxes pd_embeds : list (list (list R)))
           (anc_points : list (list R))
           (gt_labels gt_bboxes : list (list (list R))) (gt_embeds : tensor3)
           (mask_gt : list (list bool)) : assignment :=
  Assignment (map (map (fun _ => [0; 0; 0; 0])) pd_scores)
             (map (map (map (fun _ => 0))) pd_scores)
             (map (map (fun _ => [0; 0])) pd_scores)
             (map (map (fun _ => false)) pd_scores)
             (map (map (fun _ => 0%Z)) pd_scores).

Definition default_gains : gains := Gains (15 / 2) (1 / 2) (3 / 2) 1.

(** [target_bboxes /= stride_tensor] (line 166), as a value. *)
Definition unscale_boxes (stride_tensor : list R) (target_bboxes : list (list (list R)))
  : list (list (list R)) :=
  map (fun boxes => map2 (fun box s => map (fun x => x / s) box) boxes stride_tensor)
      target_bboxes.

(** [(iou_scores * target_scores).sum(-1)] (line 177). *)
Definition joint_quality (iou : list (list R)) (target_scores : list (list (list R)))
  : list (list R) :=
  map2 (map2 (fun i scores => Rsum (map (Rmult i) scores))) iou target_scores.

(** An assignment for one image of two positions with the first one in the
    foreground of instance 0, and stand-ins for the primitives. *)
Definition fg_assignment : assignment :=
  Assignment [[[0; 0; 64; 64]; [0; 0; 0; 0]]] [[[1 / 2]; [0]]]
             [[[1; 0]; [0; 0]]] [[true; false]] [[0; 0]]%Z.

Definition quarter_iou (box1 box2 : list R) : R := 1 / 4.
Definition unit_DFLoss (reg_max : nat) (pred_dist target_ltrb : list R) : R := 1.
Definition zero_distance (pred target : list (list R)) : R := 0.
Definition keep_box (anchor_point box : list R) (reg_max : R) : list R := box.


(** Distribution logits for one image of two positions with [reg_max = 2]. *)
Definition flat_logits : list (list (list R)) :=
  [[[0; 1; 2; 0; 1; 1; 0; 0]; [1; 0; 0; 2; 0; 1; 0; 3]]].

(** Two feature levels for one image, [reg_max = 1] and one class (five
    channels), of sizes 1 x 2 and 1 x 1, with one embedding channel. *)
Definition ex_feats : list (list (list (list (list R)))) :=
  [ [[ [[1; 2]]; [[3; 4]]; [[5; 6]]; [[7; 8]]; [[9; 10]] ]];
    [[ [[11]]; [[12]]; [[13]]; [[14]]; [[15]] ]] ].

Definition ex_embed_levels : list (list (list (list (list R)))) :=
  [ [[ [[21; 22]] ]]; [[ [[23]] ]] ].

Definition ex_dims : list (nat * nat) := [(1, 2); (1, 1)]%nat.

(** * Properties *)

(** ** The error monad *)

Lemma bind_ok {A B} (a : A) (k : A -> result B) : bind (ok a) k = k a.
Proof. reflexivity. Qed.

Lemma bind_raise {A B} (e : exn) (k : A -> result B) : bind (raise e) k = raise e.
Proof. reflexivity. Qed.

(** ** Lists *)

Lemma length_map2 {A B C} (f : A -> B -> C) xs ys :
  length (map2 f xs ys) = Nat.min (length xs) (length ys).
Proof.
  unfold map2. now rewrite length_map, length_combine.
Qed.

Lemma nth_map2 {A B C} (f : A -> B -> C) xs ys p dx dy d :
  (p < length xs)%nat -> (p < length ys)%nat ->
  nth p (map2 f xs ys) d = f (nth p xs dx) (nth p ys dy).
Proof.
  unfold map2. revert ys p.
  induction xs as [|x xs IH]; intros [|y ys] [|p] Hx Hy; simpl in *; try lia; auto.
  apply IH; lia.
Qed.

Lemma nth_map_default {A B} (f : A -> B) (l : list A) (j : nat) (da : A) (db : B) :
  (j < length l)%nat -> nth j (map f l) db = f (nth j l da).
Proof.
  intros Hj. rewrite (nth_indep _ db (f da)) by (rewrite length_map; lia).
  apply map_nth.
Qed.

Lemma NoDup_remove_nat (x : nat) (l : list nat) :
  NoDup l -> NoDup (remove Nat.eq_dec x l).
Proof.
  induction 1 as [|a l Ha Hnd IH]; simpl; [constructor|].
  destruct (Nat.eq_dec x a); [assumption|].
  constructor; [|assumption].
  intros Hin. apply in_remove in Hin. now apply Ha.
Qed.

Lemma length_remove_NoDup (x : nat) (l : list nat) :
  NoDup l -> In x l -> S (length (remove Nat.eq_dec x l)) = length l.
Proof.
  induction 1 as [|a l Ha Hnd IH]; simpl; [intros []|].
  intros Hin. destruct (Nat.eq_dec x a) as [->|Hne].
  - now rewrite notin_remove.
  - destruct Hin as [->|Hin]; [congruence|].
    simpl. now rewrite IH.
Qed.

Lemma not_incl_witness (l1 l2 : list nat) :
  ~ incl l1 l2 -> exists x, In x l1 /\ ~ In x l2.
Proof.
  induction l1 as [|a l1 IH]; intros Hn.
  - exfalso. apply Hn. intros x [].
  - destruct (in_dec Nat.eq_dec a l2) as [Ha|Ha].
    + destruct IH as [x [Hx1 Hx2]].
      * intros Hi. apply Hn. intros x [->|Hx]; auto.
      * exists x. split; [now right|assumption].
    + exists a. split; [now left|assumption].
Qed.

(** ** The score order *)

Section ScoreFacts.
Context {T : Type} `{ScoreLaws T}.

Lemma s_ltb_irrefl (a : T) : s_ltb a a = false.
Proof.
  destruct (s_ltb a a) eqn:E; [|reflexivity].
  pose proof (s_ltb_asym _ _ E). congruence.
Qed.

Lemma pos_above_nonpos (a b : T) :
  s_ltb s_zero a = true -> s_ltb s_zero b = false -> s_ltb b a = true.
Proof.
  intros Ha Hb. destruct (s_ltb b a) eqn:E; [reflexivity|].
  pose proof (s_ltb_negtrans _ _ _ Hb E). congruence.
Qed.

Lemma of_bool_pos (s : T) (m : bool) :
  s_ltb s_zero (s_mul s (of_bool m)) = m && s_ltb s_zero s.
Proof.
  destruct m; simpl.
  - apply s_mul_one_pos.
  - apply s_mul_zero_pos.
Qed.
End ScoreFacts.

#[export] Instance ScoreLaws_Q : ScoreLaws Q.
Proof.
  split; simpl.
  - intros a b Hab. apply negb_true_iff in Hab. apply negb_false_iff.
    apply Qle_bool_iff. destruct (Qlt_le_dec b a) as [Hlt|Hle].
    + apply Qlt_le_weak in Hlt. apply Qle_bool_iff in Hlt. congruence.
    + exact Hle.
  - intros a b c Hab Hbc. apply negb_false_iff in Hab, Hbc. apply negb_false_iff.
    apply Qle_bool_iff in Hab, Hbc. apply Qle_bool_iff.
    eapply Qle_trans; eassumption.
  - intros a. now rewrite Qmult_1_r.
  - intros a. rewrite Qmult_0_r. reflexivity.
Qed.

Lemma Rltb_true (a b : R) : Rltb a b = true <-> (a < b)%R.
Proof.
  unfold Rltb. destruct (Rlt_dec a b); split; intros; auto; discriminate.
Qed.

Lemma Rltb_false (a b : R) : Rltb a b = false <-> (b <= a)%R.
Proof.
  unfold Rltb. destruct (Rlt_dec a b); split; intros; auto; try discriminate; lra.
Qed.

#[export] Instance ScoreLaws_R : ScoreLaws R.
Proof.
  split; simpl.
  - intros a b Hab. apply Rltb_true in Hab. apply Rltb_false. lra.
  - intros a b c Hab Hbc. apply Rltb_false in Hab, Hbc. apply Rltb_false. lra.
  - intros a. now rewrite Rmult_1_r.
  - intros a. rewrite Rmult_0_r. apply Rltb_false. lra.
Qed.

(** ** The top-k contract *)

Section TopkFacts.
Context {T : Type} `{ScoreLaws T}.
Variable tk : list T -> nat -> list nat.
Hypothesis tk_ok : topk_ok tk.

(** A position that [k] other positions outrank is not returned. *)
Lemma topk_excludes_dominated (v : list T) (k j : nat) (P : list nat) :
  (k <= length v)%nat -> NoDup P -> (k <= length P)%nat ->
  (forall p, In p P ->
     (p < length v)%nat /\ s_ltb (nth j v s_zero) (nth p v s_zero) = true) ->
  ~ In j (tk v k).
Proof.
  intros Hk HP Hlen Hdom Hj.
  destruct (tk_ok v Hk) as (Hl & Hnd & _ & Hmax).
  assert (HjP : ~ In j P).
  { intros Hin. destruct (Hdom _ Hin) as [_ E]. rewrite s_ltb_irrefl in E. discriminate. }
  assert (Hincl : incl (j :: P) (tk v k)).
  { intros x [<-|Hx]; [assumption|].
    destruct (in_dec Nat.eq_dec x (tk v k)) as [?|Hout]; [assumption|].
    destruct (Hdom _ Hx) as [Hrange E].
    rewrite (Hmax j x Hj Hrange Hout) in E. discriminate. }
  assert (Hnd' : NoDup (j :: P)) by (constructor; assumption).
  pose proof (NoDup_incl_length Hnd' Hincl) as Hle. simpl in Hle. lia.
Qed.

(** A position outranked or tied by fewer than [k] others is returned. *)
Lemma topk_includes_dominant (v : list T) (k p : nat) (L : list nat) :
  (k <= length v)%nat -> (p < length v)%nat -> (length L < k)%nat ->
  (forall i, (i < length v)%nat -> i <> p ->
     s_ltb (nth i v s_zero) (nth p v s_zero) = false -> In i L) ->
  In p (tk v k).
Proof.
  intros Hk Hp Hlen Hcover.
  destruct (tk_ok v Hk) as (Hl & Hnd & Hrange & Hmax).
  destruct (in_dec Nat.eq_dec p (tk v k)) as [?|Hout]; [assumption|].
  exfalso.
  assert (Hincl : incl (tk v k) L).
  { intros i Hi. apply Hcover.
    - now apply Hrange.
    - intros ->. contradiction.
    - now apply Hmax. }
  pose proof (NoDup_incl_length Hnd Hincl). lia.
Qed.
End TopkFacts.

(** ** [topk_stable] meets the contract *)

Section TopkStableFacts.
Context {T : Type} `{ScoreLaws T}.

Lemma argmax_from_spec (v : list T) (cands : list nat) (best : nat) :
  In (argmax_from v best cands) (best :: cands) /\
  forall j, In j (best :: cands) ->
    s_ltb (nth (argmax_from v best cands) v s_zero) (nth j v s_zero) = false.
Proof.
  revert best. induction cands as [|c cs IH]; intros best; simpl.
  - split; [now left|]. intros j [<-|[]]. apply s_ltb_irrefl.
  - destruct (s_ltb (nth best v s_zero) (nth c v s_zero)) eqn:E.
    + destruct (IH c) as [Hin Hmax]. split.
      * destruct Hin as [Hin|Hin]; [right; now left|right; now right].
      * intros j [<-|[<-|Hj]].
        -- apply s_ltb_negtrans with (b := nth c v s_zero).
           ++ apply Hmax. now left.
           ++ now apply s_ltb_asym.
        -- apply Hmax. now left.
        -- apply Hmax. now right.
    + destruct (IH best) as [Hin Hmax]. split.
      * destruct Hin as [Hin|Hin]; [now left|right; now right].
      * intros j [<-|[<-|Hj]].
        -- apply Hmax. now left.
        -- apply s_ltb_negtrans with (b := nth best v s_zero).
           ++ apply Hmax. now left.
           ++ exact E.
        -- apply Hmax. now right.
Qed.

Lemma topk_rounds_spec (v : list T) (k : nat) :
  forall remaining, NoDup remaining -> (k <= length remaining)%nat ->
    length (topk_rounds v remaining k) = k /\
    NoDup (topk_rounds v remaining k) /\
    incl (topk_rounds v remaining k) remaining /\
    (forall i j, In i (topk_rounds v remaining k) -> In j remaining ->
       ~ In j (topk_rounds v remaining k) ->
       s_ltb (nth i v s_zero) (nth j v s_zero) = false).
Proof.
  induction k as [|k IH]; intros remaining Hnd Hk.
  - simpl. repeat split; try constructor. intros x []. intros i j [].
  - destruct remaining as [|r rs]; [simpl in Hk; lia|].
    set (b := argmax_from v r rs).
    change (topk_rounds v (r :: rs) (S k))
      with (b :: topk_rounds v (remove Nat.eq_dec b (r :: rs)) k).
    destruct (argmax_from_spec v rs r) as [Hb Hmax]. fold b in Hb, Hmax.
    pose proof (@length_remove_NoDup b _ Hnd Hb) as Hlen.
    destruct (IH (remove Nat.eq_dec b (r :: rs))) as (Hl & Hnd2 & Hincl & Hmax2).
    { now apply NoDup_remove_nat. }
    { lia. }
    repeat split.
    + cbn [length]. f_equal. exact Hl.
    + constructor; [|assumption].
      intros Hin. apply Hincl in Hin. now apply remove_In in Hin.
    + intros x [<-|Hx]; [assumption|].
      apply Hincl in Hx. now apply in_remove in Hx.
    + intros i j [<-|Hi] Hj Hout.
      * now apply Hmax.
      * apply Hmax2; [assumption| |].
        -- apply in_in_remove; [|assumption].
           intros ->. apply Hout. now left.
        -- intros Hin. apply Hout. now right.
Qed.

Lemma topk_stable_ok : topk_ok (@topk_stable T _).
Proof.
  intros v k Hk. unfold topk_stable.
  destruct (@topk_rounds_spec v k (seq 0 (length v))) as (Hl & Hnd & Hincl & Hmax).
  { apply seq_NoDup. }
  { now rewrite length_seq. }
  repeat split; try assumption.
  - intros i Hi. apply Hincl, in_seq in Hi. lia.
  - intros i j Hi Hj Hout. apply Hmax; try assumption.
    apply in_seq. lia.
Qed.
End TopkStableFacts.

(** ** Writing into the mask *)

Lemma length_set_true (mask : list bool) (i : nat) :
  length (set_true mask i) = length mask.
Proof.
  revert i. induction mask as [|b m IH]; intros [|i]; simpl; auto.
Qed.

Lemma nth_set_true (mask : list bool) (i p : nat) :
  nth p (set_true mask i) false = true <->
  (p = i /\ (i < length mask)%nat) \/ nth p mask false = true.
Proof.
  revert i p. induction mask as [|b m IH]; intros [|i] [|p]; simpl;
    try (rewrite IH); try (intuition (try discriminate; try lia)).
Qed.

Lemma length_index_put_true (idxs : list nat) (mask : list bool) :
  length (index_put_true mask idxs) = length mask.
Proof.
  unfold index_put_true. revert mask.
  induction idxs as [|i idxs IH]; intros mask; simpl; [reflexivity|].
  now rewrite IH, length_set_true.
Qed.

Lemma nth_index_put_true (idxs : list nat) (mask : list bool) (p : nat) :
  nth p (index_put_true mask idxs) false = true <->
  (In p idxs /\ (p < length mask)%nat) \/ nth p mask false = true.
Proof.
  unfold index_put_true. revert mask.
  induction idxs as [|i idxs IH]; intros mask; simpl.
  - intuition.
  - rewrite IH, length_set_true, nth_set_true. intuition (subst; auto).
Qed.

(** ** [torch.unique] *)

Lemma in_insert_unique (z x : Z) (l : list Z) :
  In x (insert_unique z l) <-> x = z \/ In x l.
Proof.
  induction l as [|y l IH]; simpl.
  - intuition.
  - destruct (Z.ltb_spec z y); [simpl; intuition|].
    destruct (Z.eqb_spec z y); [subst; simpl; intuition|].
    simpl. rewrite IH. intuition.
Qed.

Lemma in_unique (x : Z) (row : list Z) : In x (unique row) <-> In x row.
Proof.
  unfold unique. induction row as [|y row IH]; simpl; [reflexivity|].
  rewrite in_insert_unique, IH. intuition.
Qed.

(** ** Positions of an instance *)

Lemma in_instance_positions (row : list Z) (id : Z) (p : nat) :
  In p (instance_positions row id) <-> (p < length row)%nat /\ nth p row 0%Z = id.
Proof.
  unfold instance_positions. rewrite filter_In, in_seq, Z.eqb_eq. intuition lia.
Qed.

Lemma NoDup_instance_positions (row : list Z) (id : Z) :
  NoDup (instance_positions row id).
Proof.
  apply NoDup_filter, seq_NoDup.
Qed.

Section SelectorFacts.
Context {T : Type} `{ScoreLaws T}.
Variable tk : list T -> nat -> list nat.
Hypothesis tk_ok : topk_ok tk.

Lemma in_positive_positions (scores : list T) (row : list Z) (id : Z) (p : nat) :
  In p (positive_positions scores row id) <->
  (p < length row)%nat /\ nth p row 0%Z = id /\
  s_ltb s_zero (nth p scores s_zero) = true.
Proof.
  unfold positive_positions. rewrite filter_In, in_instance_positions. intuition.
Qed.

Lemma NoDup_positive_positions (scores : list T) (row : list Z) (id : Z) :
  NoDup (positive_positions scores row id).
Proof.
  apply NoDup_filter, NoDup_instance_positions.
Qed.

Lemma length_masked (scores : list T) (row : list Z) (id : Z) :
  length scores = length row ->
  length (masked_scores scores (instance_mask row id)) = length row.
Proof.
  intros Hl. unfold masked_scores, instance_mask.
  rewrite length_map2, length_map, Hl. apply Nat.min_id.
Qed.

Lemma nth_masked (scores : list T) (row : list Z) (id : Z) (p : nat) :
  length scores = length row -> (p < length row)%nat ->
  nth p (masked_scores scores (instance_mask row id)) s_zero =
  s_mul (nth p scores s_zero) (of_bool (Z.eqb (nth p row 0%Z) id)).
Proof.
  intros Hl Hp. unfold masked_scores, instance_mask.
  rewrite (@nth_map2 _ _ _ _ scores (map (fun g => Z.eqb g id) row) p s_zero false).
  - f_equal. f_equal.
    rewrite (nth_indep _ false ((fun g => Z.eqb g id) 0%Z)) by (rewrite length_map; lia).
    apply (map_nth (fun g => Z.eqb g id)).
  - lia.
  - rewrite length_map. lia.
Qed.

Lemma masked_pos (scores : list T) (row : list Z) (id : Z) (p : nat) :
  length scores = length row -> (p < length row)%nat ->
  s_ltb s_zero (nth p (masked_scores scores (instance_mask row id)) s_zero) = true <->
  In p (positive_positions scores row id).
Proof.
  intros Hl Hp. rewrite nth_masked, of_bool_pos, in_positive_positions by assumption.
  rewrite andb_true_iff, Z.eqb_eq. intuition.
Qed.

(** When an instance has at least [k] positions of positive score, its
    top-k are all among them. *)
Lemma topk_within_instance (scores : list T) (row : list Z) (id : Z) (k j : nat) :
  length scores = length row -> (k <= length row)%nat ->
  (k <= length (positive_positions scores row id))%nat ->
  In j (tk (masked_scores scores (instance_mask row id)) k) ->
  In j (positive_positions scores row id).
Proof.
  intros Hl Hk Hpos Hj.
  set (v := masked_scores scores (instance_mask row id)) in *.
  assert (Hlv : length v = length row) by now apply length_masked.
  assert (Hkv : (k <= length v)%nat) by lia.
  destruct (tk_ok v Hkv) as (_ & _ & Hrange & _).
  assert (Hjr : (j < length row)%nat) by (rewrite <- Hlv; now apply Hrange).
  destruct (in_dec Nat.eq_dec j (positive_positions scores row id)) as [?|Hout];
    [assumption|].
  exfalso.
  refine (@topk_excludes_dominated T _ _ tk tk_ok v k j
            (positive_positions scores row id) Hkv _ Hpos _ Hj).
  - apply NoDup_positive_positions.
  - intros p Hp.
    assert (Hpr : (p < length row)%nat) by now apply in_positive_positions in Hp.
    split; [lia|].
    apply pos_above_nonpos.
    + now apply masked_pos.
    + destruct (s_ltb s_zero (nth j v s_zero)) eqn:E; [|reflexivity].
      exfalso. apply Hout. now apply masked_pos.
Qed.

(** When an instance has at most [k] positions of positive score, its
    top-k contain all of them. *)
Lemma topk_covers_instance (scores : list T) (row : list Z) (id : Z) (k p : nat) :
  length scores = length row -> (k <= length row)%nat ->
  (length (positive_positions scores row id) <= k)%nat ->
  In p (positive_positions scores row id) ->
  In p (tk (masked_scores scores (instance_mask row id)) k).
Proof.
  intros Hl Hk Hpos Hp.
  set (v := masked_scores scores (instance_mask row id)) in *.
  assert (Hlv : length v = length row) by now apply length_masked.
  assert (Hpr : (p < length row)%nat) by now apply in_positive_positions in Hp.
  apply (topk_includes_dominant tk_ok)
    with (L := remove Nat.eq_dec p (positive_positions scores row id)).
  - lia.
  - lia.
  - pose proof (remove_length_lt Nat.eq_dec _ _ Hp). lia.
  - intros i Hi Hne Hnlt.
    apply in_in_remove; [assumption|].
    apply masked_pos; [assumption|lia|].
    destruct (s_ltb s_zero (nth i v s_zero)) eqn:E; [exact E|].
    assert (Hpp : s_ltb s_zero (nth p v s_zero) = true) by now apply masked_pos.
    pose proof (pos_above_nonpos _ _ Hpp E). congruence.
Qed.
End SelectorFacts.

(** ** The selection loops *)

Lemma shaped_nth {A : Type} (b a : nat) (t : list (list A)) (i : nat) :
  shaped b a t -> (i < b)%nat -> length (nth i t []) = a.
Proof.
  intros [Hl Hall] Hi. rewrite Forall_forall in Hall.
  apply Hall, nth_In. lia.
Qed.

Lemma nth_zeros_like (fg : list (list bool)) (b p : nat) :
  nth p (nth b (zeros_like fg) []) false = false.
Proof.
  unfold zeros_like.
  change (@nil bool) with (map (fun _ : bool => false) []).
  rewrite map_nth.
  change false with ((fun _ : bool => false) false) at 2.
  now rewrite map_nth.
Qed.

Lemma length_zeros_like (fg : list (list bool)) : length (zeros_like fg) = length fg.
Proof.
  unfold zeros_like. apply length_map.
Qed.

Lemma length_nth_zeros_like (fg : list (list bool)) (b : nat) :
  length (nth b (zeros_like fg) []) = length (nth b fg []).
Proof.
  unfold zeros_like.
  change (@nil bool) with (map (fun _ : bool => false) []) at 1.
  now rewrite map_nth, length_map.
Qed.

Section SelectionLoops.
Context {T : Type} `{Score T}.
Variable tk : list T -> nat -> list nat.

Lemma select_instances_spec (scores : list T) (row : list Z) (k : nat) (ids : list Z) :
  length scores = length row -> (k <= length row)%nat ->
  forall mask, exists mask',
    select_instances tk scores row k ids mask = ok mask' /\
    length mask' = length mask /\
    forall p, nth p mask' false = true <->
      nth p mask false = true \/
      ((p < length mask)%nat /\
       exists id, In id ids /\ In p (tk (masked_scores scores (instance_mask row id)) k)).
Proof.
  intros Hl Hk. induction ids as [|id ids IH]; intros mask; simpl.
  - exists mask. repeat split; auto.
    + intros [?|(_ & id & [] & _)]. assumption.
  - unfold torch_topk.
    assert (Hlen : length (masked_scores scores (instance_mask row id)) = length row).
    { unfold masked_scores, instance_mask.
      rewrite length_map2, length_map, Hl. apply Nat.min_id. }
    rewrite Hlen. destruct (Nat.leb_spec k (length row)) as [_|?]; [|lia].
    simpl.
    destruct (IH (index_put_true mask
                    (tk (masked_scores scores (instance_mask row id)) k)))
      as (mask' & Hrun & Hlen' & Hnth).
    exists mask'. split; [exact Hrun|]. split.
    + now rewrite Hlen', length_index_put_true.
    + intros p. rewrite Hnth, nth_index_put_true, length_index_put_true.
      split.
      * intros [[[Hin Hp]|Hold]|[Hp (id' & Hid & Hin)]]; auto.
        -- right. split; [assumption|]. exists id. split; [now left|assumption].
        -- right. split; [assumption|]. exists id'. split; [now right|assumption].
      * intros [Hold|[Hp (id' & [<-|Hid] & Hin)]]; auto.
        right. split; [assumption|]. exists id'. split; assumption.
Qed.

Lemma embed_select_spec (k : nat) (idx : list (list Z)) :
  forall (scores : list (list T)) (mask0 : list (list bool)),
    length scores = length idx -> length mask0 = length idx ->
    (forall b, (b < length idx)%nat ->
       length (nth b scores []) = length (nth b idx []) /\
       (k <= length (nth b idx []))%nat) ->
    exists mask,
      embed_select tk scores idx k mask0 = ok mask /\
      length mask = length idx /\
      forall b, (b < length idx)%nat ->
        length (nth b mask []) = length (nth b mask0 []) /\
        forall p, nth p (nth b mask []) false = true <->
          nth p (nth b mask0 []) false = true \/
          ((p < length (nth b mask0 []))%nat /\
           selected_by tk k (nth b scores []) (nth b idx []) p).
Proof.
  induction idx as [|row rows IH]; intros scores mask0 Hs Hm Hrows.
  - destruct mask0; [|discriminate]. exists []. simpl.
    split; [reflexivity|]. split; [reflexivity|]. intros b Hb. lia.
  - destruct scores as [|s scores]; [discriminate|].
    destruct mask0 as [|m ms]; [discriminate|].
    simpl in Hs, Hm.
    destruct (Hrows 0%nat) as [Hl0 Hk0]; [simpl; lia|]. simpl in Hl0, Hk0.
    destruct (@select_instances_spec s row k (unique row) Hl0 Hk0 m)
      as (m' & Hrun & Hlen & Hnth).
    destruct (IH scores ms) as (ms' & Hrun' & Hlen' & Hnth'); try lia.
    { intros b Hb. apply (Hrows (S b)). simpl. lia. }
    exists (m' :: ms'). simpl. rewrite Hrun. simpl. rewrite Hrun'. simpl.
    split; [reflexivity|]. split; [now rewrite Hlen'|].
    intros [|b] Hb.
    + split; [assumption|]. intros p. rewrite Hnth. unfold selected_by.
      split; (intros [?|[Hp (id & Hid & Hin)]]; [now left|right]);
        (split; [assumption|]); exists id; (split; [|assumption]).
      * now apply in_unique.
      * now apply in_unique.
    + apply Hnth'. lia.
Qed.

Lemma embed_select_zeros (b a k : nat) (scores : list (list T))
      (idx : list (list Z)) (fg : list (list bool)) :
  shaped b a scores -> shaped b a idx -> shaped b a fg -> (k <= a)%nat ->
  exists mask,
    embed_select tk scores idx k (zeros_like fg) = ok mask /\
    shaped b a mask /\
    forall bi, (bi < b)%nat ->
      forall p, nth p (nth bi mask []) false = true <->
        (p < a)%nat /\ selected_by tk k (nth bi scores []) (nth bi idx []) p.
Proof.
  intros Hs Hi Hf Hk.
  destruct (@embed_select_spec k idx scores (zeros_like fg))
    as (mask & Hrun & Hlen & Hrows).
  - destruct Hs, Hi. congruence.
  - rewrite length_zeros_like. destruct Hf, Hi. congruence.
  - intros bi Hbi. destruct Hi as [Hib Hia].
    rewrite (shaped_nth (b := b) (a := a)); [|assumption|lia].
    rewrite (shaped_nth (b := b) (a := a)); [|split; assumption|lia]. lia.
  - exists mask. split; [exact Hrun|].
    assert (Hb : length idx = b) by apply Hi.
    split.
    + split; [congruence|]. apply Forall_forall. intros r Hr.
      destruct (In_nth _ _ [] Hr) as (bi & Hbi & <-).
      destruct (Hrows bi) as [Hl _]; [lia|].
      rewrite Hl, length_nth_zeros_like.
      apply (shaped_nth Hf). lia.
    + intros bi Hbi. destruct (Hrows bi) as [_ Hnth]; [lia|].
      intros p. rewrite Hnth, nth_zeros_like, length_nth_zeros_like.
      rewrite (shaped_nth Hf Hbi). intuition discriminate.
Qed.
End SelectionLoops.

Lemma length_filter_le {A : Type} (f : A -> bool) (l : list A) :
  (length (filter f l) <= length l)%nat.
Proof.
  induction l as [|x l IH]; simpl; [lia|].
  destruct (f x); simpl; lia.
Qed.

(** ** EmbeddingSelector: what the mask marks *)

(** C2 (amended).  [embed_select] returns a mask.  For every value of an
    image's [target_gt_idx] row: when at least [embed_topk] of its positions
    have a strictly positive joint quality score, the [embed_topk] indices
    [torch.topk] returns in its iteration are distinct, are positions of that
    value with a positive score, and are all marked, so at least [embed_topk]
    of its positions are marked; when it has fewer than [embed_topk]
    positions, each of them with a strictly positive score is marked. *)
Theorem embed_select_topk_of_instance {T : Type} `{ScoreLaws T}
        (tk : list T -> nat -> list nat) (b a k : nat)
        (scores : list (list T)) (idx : list (list Z)) (fg : list (list bool)) :
  topk_ok tk ->
  shaped b a scores -> shaped b a idx -> shaped b a fg -> (k <= a)%nat ->
  exists mask,
    embed_select tk scores idx k (zeros_like fg) = ok mask /\
    forall bi id, (bi < b)%nat -> In id (nth bi idx []) ->
      ((k <= length (positive_positions (nth bi scores []) (nth bi idx []) id))%nat ->
       length (tk (masked_scores (nth bi scores []) (instance_mask (nth bi idx []) id)) k) = k /\
       NoDup (tk (masked_scores (nth bi scores []) (instance_mask (nth bi idx []) id)) k) /\
       incl (tk (masked_scores (nth bi scores []) (instance_mask (nth bi idx []) id)) k)
            (positive_positions (nth bi scores []) (nth bi idx []) id) /\
       incl (tk (masked_scores (nth bi scores []) (instance_mask (nth bi idx []) id)) k)
            (marked_positions (nth bi mask []) (nth bi idx []) id) /\
       (k <= length (marked_positions (nth bi mask []) (nth bi idx []) id))%nat) /\
      ((length (instance_positions (nth bi idx []) id) < k)%nat ->
       forall p, In p (positive_positions (nth bi scores []) (nth bi idx []) id) ->
         nth p (nth bi mask []) false = true).
Proof.
  intros Hok Hs Hi Hf Hk.
  destruct (embed_select_zeros tk Hs Hi Hf Hk) as (mask & Hrun & _ & Hnth).
  exists mask. split; [exact Hrun|].
  intros bi id Hbi Hid.
  pose proof (shaped_nth Hs Hbi) as Hls.
  pose proof (shaped_nth Hi Hbi) as Hli.
  set (row := nth bi idx []) in *. set (sc := nth bi scores []) in *.
  assert (Hl : length sc = length row) by congruence.
  assert (Hkr : (k <= length row)%nat) by lia.
  assert (Hkv : (k <= length (masked_scores sc (instance_mask row id)))%nat).
  { rewrite length_masked; assumption. }
  destruct (Hok _ _ Hkv) as (Hlen & Hnd & _ & _).
  split.
  - intros Hpos.
    assert (Hwithin : incl (tk (masked_scores sc (instance_mask row id)) k)
                           (positive_positions sc row id)).
    { intros p Hp. apply (topk_within_instance Hok) with (k := k); assumption. }
    assert (Hmarked : incl (tk (masked_scores sc (instance_mask row id)) k)
                           (marked_positions (nth bi mask []) row id)).
    { intros p Hp. unfold marked_positions. apply filter_In.
      pose proof (Hwithin p Hp) as Hpp. apply in_positive_positions in Hpp.
      destruct Hpp as (Hpr & Hpid & _). split.
      - now apply in_instance_positions.
      - apply (Hnth bi Hbi). split; [lia|]. exists id. split; assumption. }
    repeat split; try assumption.
    rewrite <- Hlen at 1. now apply NoDup_incl_length.
  - intros Hfew p Hp.
    apply (Hnth bi Hbi).
    assert (Hpr : (p < length row)%nat) by now apply in_positive_positions in Hp.
    split; [lia|]. exists id. split; [assumption|].
    apply (topk_covers_instance Hok); [assumption|assumption| |assumption].
    unfold positive_positions.
    eapply Nat.le_trans; [apply length_filter_le|].
    apply Nat.lt_le_incl. exact Hfew.
Qed.

(** C3 (amended).  [embed_select] returns a mask.  Every value that occurs
    in an image's [target_gt_idx] row is iterated, none is skipped as a
    sentinel: each of the [embed_topk] indices [torch.topk] returns in its
    iteration is marked.  Conversely every marked position is one of the
    [embed_topk] indices returned in the iteration of some distinct value of
    the row; when that value has at least [embed_topk] positions of strictly
    positive joint quality score, the position carries that value and has a
    positive score. *)
Theorem embed_mask_marks_topk_indices {T : Type} `{ScoreLaws T}
        (tk : list T -> nat -> list nat) (b a k : nat)
        (scores : list (list T)) (idx : list (list Z)) (fg : list (list bool)) :
  topk_ok tk ->
  shaped b a scores -> shaped b a idx -> shaped b a fg -> (k <= a)%nat ->
  exists mask,
    embed_select tk scores idx k (zeros_like fg) = ok mask /\
    forall bi, (bi < b)%nat ->
      (forall id p,
          In id (nth bi idx []) ->
          In p (tk (masked_scores (nth bi scores []) (instance_mask (nth bi idx []) id)) k) ->
          nth p (nth bi mask []) false = true) /\
      (forall p, nth p (nth bi mask []) false = true ->
         exists id,
           In id (unique (nth bi idx [])) /\
           In p (tk (masked_scores (nth bi scores []) (instance_mask (nth bi idx []) id)) k) /\
           ((k <= length (positive_positions (nth bi scores []) (nth bi idx []) id))%nat ->
            nth p (nth bi idx []) 0%Z = id /\
            s_ltb s_zero (nth p (nth bi scores []) s_zero) = true)).
Proof.
  intros Hok Hs Hi Hf Hk.
  destruct (embed_select_zeros tk Hs Hi Hf Hk) as (mask & Hrun & _ & Hnth).
  exists mask. split; [exact Hrun|].
  intros bi Hbi.
  pose proof (shaped_nth Hs Hbi) as Hls.
  pose proof (shaped_nth Hi Hbi) as Hli.
  split.
  - intros id p Hid Hin.
    apply (Hnth bi Hbi). split.
    + assert (Hlv : length (masked_scores (nth bi scores []) (instance_mask (nth bi idx []) id))
                    = a).
      { rewrite length_masked; congruence. }
      destruct (Hok (masked_scores (nth bi scores []) (instance_mask (nth bi idx []) id)) k)
        as (_ & _ & Hrange & _); [rewrite Hlv; exact Hk|].
      rewrite <- Hlv. now apply Hrange.
    + exists id. split; assumption.
  - intros p Hp.
    apply (Hnth bi Hbi) in Hp. destruct Hp as (Hpa & id & Hid & Hin).
    exists id. split; [now apply in_unique|]. split; [assumption|].
    intros Hpos.
    assert (Hpp : In p (positive_positions (nth bi scores []) (nth bi idx []) id)).
    { apply (topk_within_instance Hok) with (k := k); try assumption; try lia. }
    apply in_positive_positions in Hpp. tauto.
Qed.

Lemma ex_shapes :
  shaped 1 4 ex_scores /\ shaped 1 4 ex_idx /\ shaped 1 4 ex_fg.
Proof.
  repeat split; repeat constructor.
Qed.

Lemma bg_shapes :
  shaped 1 5 bg_scores /\ shaped 1 5 bg_idx /\ shaped 1 5 bg_fg.
Proof.
  repeat split; repeat constructor.
Qed.

Lemma embed_select_topk_of_instance_witness :
  topk_ok (T := Q) topk_stable /\
  shaped 1 4 ex_scores /\ shaped 1 4 ex_idx /\ shaped 1 4 ex_fg /\ (2 <= 4)%nat /\
  exists mask,
    embed_select topk_stable ex_scores ex_idx 2 (zeros_like ex_fg) = ok mask /\
    (2 <= length (marked_positions (nth 0 mask []) (nth 0 ex_idx []) 1%Z))%nat.
Proof.
  destruct ex_shapes as (Hs & Hi & Hf).
  assert (Hk : (2 <= 4)%nat) by lia.
  repeat (split; [first [apply topk_stable_ok | assumption]|]).
  destruct (embed_select_topk_of_instance (T := Q) topk_stable_ok Hs Hi Hf Hk)
    as (mask & Hrun & Hall).
  exists mask. split; [exact Hrun|].
  destruct (Hall 0%nat 1%Z) as [Hmany _]; [lia|simpl; auto|].
  apply Hmany. vm_compute. lia.
Defined.

Lemma embed_mask_marks_topk_indices_witness :
  topk_ok (T := Q) topk_stable /\
  shaped 1 5 bg_scores /\ shaped 1 5 bg_idx /\ shaped 1 5 bg_fg /\ (3 <= 5)%nat /\
  exists mask,
    embed_select topk_stable bg_scores bg_idx 3 (zeros_like bg_fg) = ok mask /\
    (forall p,
        In p (topk_stable (masked_scores (nth 0 bg_scores [])
                             (instance_mask (nth 0 bg_idx []) (-1)%Z)) 3) ->
        nth p (nth 0 mask []) false = true) /\
    (forall p, nth p (nth 0 mask []) false = true ->
       exists id, In id (unique (nth 0 bg_idx [])) /\
         In p (topk_stable (masked_scores (nth 0 bg_scores [])
                              (instance_mask (nth 0 bg_idx []) id)) 3)).
Proof.
  destruct bg_shapes as (Hs & Hi & Hf).
  assert (Hk : (3 <= 5)%nat) by lia.
  repeat (split; [first [apply topk_stable_ok | assumption]|]).
  destruct (embed_mask_marks_topk_indices (T := Q) topk_stable_ok Hs Hi Hf Hk)
    as (mask & Hrun & Hall).
  exists mask. split; [exact Hrun|].
  destruct (Hall 0%nat) as [Hiter Hmarked]; [lia|].
  split.
  - intros p Hp. apply (Hiter (-1)%Z p); [simpl; auto|exact Hp].
  - intros p Hp. destruct (Hmarked p Hp) as (id & Hid & Hin & _).
    exists id. split; assumption.
Defined.

Example embed_select_ex :
  embed_select topk_stable ex_scores ex_idx 2 (zeros_like ex_fg)
  = ok [[true; true; true; true]].
Proof. vm_compute. reflexivity. Qed.

Example embed_select_bg :
  embed_select topk_stable bg_scores bg_idx 3 (zeros_like bg_fg)
  = ok [[true; true; true; false; false]].
Proof. vm_compute. reflexivity. Qed.

(** C3 (as stated) fails.  With two positions assigned to instance 1, three
    background positions and [embed_topk = 3], the iteration of instance 1
    has to return a third index, and whichever one [torch.topk] picks is a
    background position: no top-k meeting the contract keeps the mask inside
    the foreground. *)
Lemma background_position_selected :
  ~ exists tk : list Q -> nat -> list nat,
      topk_ok tk /\ selects_only_foreground tk bg_scores bg_idx bg_fg 3.
Proof.
  intros (tk & Hok & Hclaim).
  destruct bg_shapes as (Hs & Hi & Hf).
  assert (Hk : (3 <= 5)%nat) by lia.
  destruct (embed_select_zeros tk Hs Hi Hf Hk) as (mask & Hrun & _ & Hnth).
  specialize (Hclaim mask Hrun 0%nat).
  set (v := masked_scores (nth 0 bg_scores []) (instance_mask (nth 0 bg_idx []) 1%Z)).
  assert (Hlv : length v = 5%nat) by reflexivity.
  destruct (Hok v 3%nat) as (Hlen & Hnd & Hrange & _); [rewrite Hlv; lia|].
  assert (Hnot : ~ incl (tk v 3%nat) [0; 1]%nat).
  { intros Hincl. pose proof (NoDup_incl_length Hnd Hincl) as Hle.
    rewrite Hlen in Hle. simpl in Hle. lia. }
  destruct (not_incl_witness Hnot) as (p & Hp & Hout).
  assert (Hp5 : (p < 5)%nat) by (rewrite <- Hlv; now apply Hrange).
  assert (Hmarked : nth p (nth 0 mask []) false = true).
  { apply Hnth; [lia|]. split; [assumption|].
    exists 1%Z. split; [simpl; auto|exact Hp]. }
  apply Hclaim in Hmarked.
  destruct p as [|[|[|[|[|p]]]]]; simpl in Hmarked, Hout;
    try discriminate; try lia; tauto.
Qed.

(** Closes [In y (tk v k)] for closed [v], [k], [y]: [others] lists the positions
    other than [y] that are not ranked below it. *)
Ltac topk_has Hok others :=
  apply (topk_includes_dominant Hok) with (L := others);
  [ vm_compute; lia | vm_compute; lia | simpl; lia
  | let i := fresh "i" in
    let Hi := fresh "Hi" in
    let Hne := fresh "Hne" in
    let Hlt := fresh "Hlt" in
    intros i Hi Hne Hlt;
    do 5 (try (destruct i as [|i];
               [ try (exfalso; apply Hne; reflexivity);
                 try (vm_compute in Hlt; discriminate Hlt);
                 try (simpl; tauto) | ]));
    exfalso; vm_compute in Hi; lia ].

(** C2 (as stated) fails.  Instance 1 has three assigned positions, instance 2
    has one, [embed_topk = 2]: the iteration of instance 2 returns its own
    position and one position of instance 1, all of which tie at zero after
    masking.  Whichever position [torch.topk] picks there, the batch in which
    that position has the lowest score of instance 1 ends with all three
    positions of instance 1 marked, not two. *)
Lemma more_than_topk_marked :
  ~ exists tk : list Q -> nat -> list nat,
      topk_ok tk /\
      forall low, (low < 3)%nat ->
        selects_topk_per_instance tk (ex_scores_by_low low) ex_idx ex_fg 2.
Proof.
  intros (tk & Hok & Hclaim).
  set (v2 := [0; 0; 0; 6]%Q).
  destruct (Hok v2 2%nat) as (Hlen2 & Hnd2 & Hrange2 & _); [simpl; lia|].
  assert (Hnot : ~ incl (tk v2 2%nat) [3%nat]).
  { intros Hincl. pose proof (NoDup_incl_length Hnd2 Hincl) as Hle.
    rewrite Hlen2 in Hle. simpl in Hle. lia. }
  destruct (not_incl_witness Hnot) as (x & Hx & Hx3).
  assert (Hx4 : (x < 4)%nat) by now apply Hrange2.
  assert (Hxlow : (x < 3)%nat).
  { destruct (Nat.eq_dec x 3) as [->|]; [exfalso; apply Hx3; now left|lia]. }
  specialize (Hclaim x Hxlow).
  assert (Hs : shaped 1 4 (ex_scores_by_low x)).
  { destruct x as [|[|x]]; repeat split; repeat constructor. }
  destruct ex_shapes as (_ & Hi & Hf).
  assert (Hk : (2 <= 4)%nat) by lia.
  destruct (embed_select_zeros tk Hs Hi Hf Hk) as (mask & Hrun & _ & Hnth).
  specialize (Hclaim mask Hrun 0%nat ltac:(simpl; lia)). specialize (Hnth 0%nat).
  assert (Hmark : forall p, (p < 3)%nat -> nth p (nth 0 mask []) false = true).
  { intros p Hp. apply Hnth; [lia|]. split; [lia|].
    destruct (Nat.eq_dec p x) as [->|Hpx].
    - exists 2%Z. split; [simpl; auto|].
      replace (masked_scores (nth 0 (ex_scores_by_low x) [])
                 (instance_mask (nth 0 ex_idx []) 2%Z)) with v2; [exact Hx|].
      destruct x as [|[|x]]; reflexivity.
    - exists 1%Z. split; [simpl; auto|].
      destruct x as [|[|[|x]]]; [| | |lia];
        (destruct p as [|[|[|p]]]; [| | |lia]); try congruence.
      + topk_has Hok (@nil nat).
      + topk_has Hok [1%nat].
      + topk_has Hok (@nil nat).
      + topk_has Hok [0%nat].
      + topk_has Hok (@nil nat).
      + topk_has Hok [0%nat]. }
  destruct (Hclaim 1%Z) as [Hexact _]; [discriminate|].
  assert (Ha : assigned_positions (nth 0 ex_fg []) (nth 0 ex_idx []) 1%Z
               = [0; 1; 2]%nat) by reflexivity.
  rewrite Ha in Hexact. specialize (Hexact ltac:(simpl; lia)).
  cbn [filter] in Hexact.
  rewrite !Hmark in Hexact by lia. simpl in Hexact. discriminate.
Qed.

(** ** Sums over tensors *)

Lemma map2_nth_seq {A B C} (f : A -> B -> C) (dx : A) (dy : B) (n : nat) :
  forall xs ys, length xs = n -> length ys = n ->
    map2 f xs ys = map (fun i => f (nth i xs dx) (nth i ys dy)) (seq 0 n).
Proof.
  unfold map2. induction n as [|n IH]; intros [|x xs] [|y ys] Hx Hy;
    simpl in *; try discriminate; [reflexivity|].
  f_equal. rewrite <- seq_shift, map_map. apply IH; lia.
Qed.

Lemma map_nth_seq {A B} (h : A -> B) (d : A) (n : nat) :
  forall xs, length xs = n -> map h xs = map (fun i => h (nth i xs d)) (seq 0 n).
Proof.
  induction n as [|n IH]; intros [|x xs] Hx; simpl in *; try discriminate;
    [reflexivity|].
  f_equal. rewrite <- seq_shift, map_map. apply IH; lia.
Qed.

Lemma Rsum_app (l1 l2 : list R) : Rsum (l1 ++ l2) = Rsum l1 + Rsum l2.
Proof.
  unfold Rsum. induction l1 as [|x l1 IH]; simpl; [lra|]. rewrite IH. lra.
Qed.

Lemma Rsum_map_ext_in {A} (f g : A -> R) (l : list A) :
  (forall x, In x l -> f x = g x) -> Rsum (map f l) = Rsum (map g l).
Proof.
  intros Hext. f_equal. now apply map_ext_in.
Qed.

Lemma shaped3_nth {A : Type} (b a c : nat) (t : list (list (list A))) (i : nat) :
  shaped3 b a c t -> (i < b)%nat -> shaped a c (nth i t []).
Proof.
  intros [Hl Hall] Hi. rewrite Forall_forall in Hall.
  apply Hall, nth_In. lia.
Qed.

Lemma py_max_Rmax (a b : R) : py_max a b = Rmax a b.
Proof.
  unfold py_max, Rmax. destruct (Rlt_dec a b), (Rle_dec a b); lra.
Qed.

(** ** TargetPreprocessor on a batch without annotations *)

(** C10.  On a target tensor with no row and a width of at least one column
    (the image-index column), [preprocess] and [preprocess_embedding] both
    return, without raising, the tensor of shape (batch_size, 0, width - 1),
    which has no entry; the result is the same for every [scale_tensor] and
    every [xywh2xyxy], so the rescaling and format conversion take no part
    in it. *)
Theorem preprocess_no_rows (xywh2xyxy : list R -> list R) (targets : tensor2)
        (batch_size : nat) (scale_tensor : list R) :
  t2_rows targets = [] -> (1 <= t2_cols targets)%nat ->
  preprocess xywh2xyxy targets batch_size scale_tensor
  = ok (Tensor3 (batch_size, 0, t2_cols targets - 1)%nat (repeat [] batch_size)) /\
  preprocess_embedding targets batch_size
  = ok (Tensor3 (batch_size, 0, t2_cols targets - 1)%nat (repeat [] batch_size)).
Proof.
  intros Hrows Hcols. unfold preprocess, preprocess_embedding, torch_zeros.
  rewrite Hrows. simpl.
  destruct (Z.ltb_spec (Z.of_nat (t2_cols targets) - 1) 0) as [Hneg|_]; [lia|].
  replace (Z.to_nat (Z.of_nat (t2_cols targets) - 1)) with (t2_cols targets - 1)%nat by lia.
  split; reflexivity.
Qed.

Lemma preprocess_no_rows_witness :
  t2_rows (Tensor2 6 []) = [] /\ (1 <= t2_cols (Tensor2 6 []))%nat /\
  preprocess (fun box => box) (Tensor2 6 []) 2 [640; 640; 640; 640]
  = ok (Tensor3 (2, 0, 5)%nat [[]; []]) /\
  preprocess_embedding (Tensor2 6 []) 2 = ok (Tensor3 (2, 0, 5)%nat [[]; []]).
Proof.
  split; [reflexivity|]. split; [simpl; lia|].
  apply (@preprocess_no_rows (fun box => box) (Tensor2 6 []) 2 [640; 640; 640; 640]).
  - reflexivity.
  - simpl. lia.
Defined.

(** ** Classification loss *)

Lemma Rsum3_map2_bce (b a nc : nat) (pred target : list (list (list R))) :
  shaped3 b a nc pred -> shaped3 b a nc target ->
  Rsum3 (map2 (map2 (map2 bce_with_logits)) pred target) = bce_total b a nc pred target.
Proof.
  intros Hp Ht. unfold Rsum3, bce_total.
  rewrite (map2_nth_seq _ [] [] (n := b)) by (apply Hp || apply Ht).
  rewrite map_map. apply Rsum_map_ext_in. intros i Hi. apply in_seq in Hi.
  pose proof (shaped3_nth Hp (i := i) ltac:(lia)) as Hpi.
  pose proof (shaped3_nth Ht (i := i) ltac:(lia)) as Hti.
  unfold Rsum2.
  rewrite (map2_nth_seq _ [] [] (n := a)) by (apply Hpi || apply Hti).
  rewrite map_map. apply Rsum_map_ext_in. intros j Hj. apply in_seq in Hj.
  pose proof (shaped_nth Hpi (i := j) ltac:(lia)) as Hpj.
  pose proof (shaped_nth Hti (i := j) ltac:(lia)) as Htj.
  now rewrite (map2_nth_seq _ 0 0 (n := nc)).
Qed.

Lemma Rsum3_score_total (b a nc : nat) (target : list (list (list R))) :
  shaped3 b a nc target -> Rsum3 target = score_total b a nc target.
Proof.
  intros Ht. unfold Rsum3, score_total.
  rewrite (map_nth_seq _ [] (n := b)) by apply Ht.
  apply Rsum_map_ext_in. intros i Hi. apply in_seq in Hi.
  pose proof (shaped3_nth Ht (i := i) ltac:(lia)) as Hti.
  unfold Rsum2.
  rewrite (map_nth_seq _ [] (n := a)) by apply Hti.
  apply Rsum_map_ext_in. intros j Hj. apply in_seq in Hj.
  pose proof (shaped_nth Hti (i := j) ltac:(lia)) as Htj.
  unfold Rsum at 1. fold (Rsum (nth j (nth i target []) [])).
  rewrite <- (map_id (nth j (nth i target []) [])) at 1.
  now rewrite (map_nth_seq (fun x => x) 0 (n := nc)).
Qed.

(** C5.  For predicted and target class scores of one shape (b, a, nc), the
    classification loss of [__call__] is the element-wise binary cross-entropy
    with logits, summed over every image, position and class, divided by the
    larger of the sum of all target class scores and 1; the divisor, which is
    [target_scores_sum], is never below 1. *)
Theorem cls_loss_normalized_bce (b a nc : nat) (pred_scores target_scores : list (list (list R))) :
  shaped3 b a nc pred_scores -> shaped3 b a nc target_scores ->
  cls_loss pred_scores target_scores
  = bce_total b a nc pred_scores target_scores
    / Rmax (score_total b a nc target_scores) 1 /\
  target_scores_sum_of target_scores = Rmax (score_total b a nc target_scores) 1 /\
  1 <= target_scores_sum_of target_scores.
Proof.
  intros Hp Ht. unfold cls_loss, target_scores_sum_of.
  rewrite py_max_Rmax, (Rsum3_map2_bce Hp Ht), (Rsum3_score_total Ht).
  repeat split. apply Rmax_r.
Qed.

Lemma cls_loss_normalized_bce_witness :
  shaped3 1 2 1 [[[0]; [2]]] /\ shaped3 1 2 1 [[[1]; [0]]] /\
  cls_loss [[[0]; [2]]] [[[1]; [0]]]
  = bce_total 1 2 1 [[[0]; [2]]] [[[1]; [0]]]
    / Rmax (score_total 1 2 1 [[[1]; [0]]]) 1 /\
  target_scores_sum_of [[[1]; [0]]] = Rmax (score_total 1 2 1 [[[1]; [0]]]) 1 /\
  1 <= target_scores_sum_of [[[1]; [0]]].
Proof.
  assert (Hp : shaped3 1 2 1 [[[0]; [2]]]) by (repeat split; repeat constructor).
  assert (Ht : shaped3 1 2 1 [[[1]; [0]]]) by (repeat split; repeat constructor).
  split; [exact Hp|]. split; [exact Ht|].
  exact (cls_loss_normalized_bce Hp Ht).
Defined.

(** ** Localization loss *)

Lemma map2_app {A B C} (f : A -> B -> C) (l1 l1' : list A) (l2 l2' : list B) :
  length l1 = length l2 ->
  map2 f (l1 ++ l1') (l2 ++ l2') = map2 f l1 l2 ++ map2 f l1' l2'.
Proof.
  unfold map2. revert l2. induction l1 as [|x l1 IH]; intros [|y l2] Hl;
    simpl in *; try discriminate; [reflexivity|].
  f_equal. apply IH. lia.
Qed.

Lemma length_mask_select1 {A} (m : list bool) (xs : list A) :
  length xs = length m -> length (mask_select1 m xs) = count_true m.
Proof.
  unfold mask_select1, count_true. revert xs.
  induction m as [|b0 m IH]; intros [|x xs] Hl; simpl in *; try discriminate;
    [reflexivity|].
  destruct b0; simpl; rewrite IH by lia; reflexivity.
Qed.

Lemma Rsum_map2_select1 {A B} (f : A -> B -> R) (dx : A) (dy : B) (m : list bool) :
  forall xs ys, length xs = length m -> length ys = length m ->
    Rsum (map2 f (mask_select1 m xs) (mask_select1 m ys))
    = Rsum (map (fun j => if nth j m false then f (nth j xs dx) (nth j ys dy) else 0)
                (seq 0 (length m))).
Proof.
  induction m as [|b0 m IH]; intros [|x xs] [|y ys] Hx Hy; simpl in *;
    try discriminate; [reflexivity|].
  rewrite <- seq_shift, map_map.
  specialize (IH xs ys ltac:(lia) ltac:(lia)).
  unfold mask_select1 in *. destruct b0; simpl.
  - unfold map2 in *. simpl. unfold Rsum in *. simpl. rewrite IH. reflexivity.
  - rewrite IH. unfold Rsum. simpl. lra.
Qed.

Lemma Rsum_map2_select {A B} (f : A -> B -> R) (dx : A) (dy : B) (a : nat)
      (M : list (list bool)) :
  forall (X : list (list A)) (Y : list (list B)),
    shaped (length M) a M -> shaped (length M) a X -> shaped (length M) a Y ->
    Rsum (map2 f (mask_select M X) (mask_select M Y))
    = Rsum (map (fun i =>
        Rsum (map (fun j =>
          if nth j (nth i M []) false
          then f (nth j (nth i X []) dx) (nth j (nth i Y []) dy) else 0)
          (seq 0 a))) (seq 0 (length M))).
Proof.
  induction M as [|m M IH]; intros [|x X] [|y Y] [_ HM] [HlX HX] [HlY HY];
    simpl in *; try discriminate; [reflexivity|].
  inversion HM as [|? ? Hm HM']; subst.
  inversion HX as [|? ? Hx HX']; subst.
  inversion HY as [|? ? Hy HY']; subst.
  rewrite <- seq_shift, map_map.
  unfold mask_select. unfold map2 at 2 3. simpl.
  fold (map2 (@mask_select1 A) M X). fold (map2 (@mask_select1 B) M Y).
  fold (mask_select M X). fold (mask_select M Y).
  rewrite map2_app by (rewrite !length_mask_select1; congruence).
  rewrite Rsum_app.
  rewrite (Rsum_map2_select1 f dx dy) by congruence.
  rewrite IH by (split; [lia|assumption]).
  unfold Rsum at 3. simpl. reflexivity.
Qed.

Lemma shaped_map2 {A B C} (f : A -> B -> C) (b a : nat)
      (X : list (list A)) (Y : list (list B)) :
  shaped b a X -> shaped b a Y -> shaped b a (map2 (map2 f) X Y).
Proof.
  intros [HlX HX] [HlY HY]. split.
  - rewrite length_map2. lia.
  - apply Forall_forall. intros r Hr.
    destruct (In_nth _ _ [] Hr) as (i & Hi & <-).
    rewrite length_map2 in Hi.
    rewrite (@nth_map2 _ _ _ (map2 f) X Y i [] [] []) by lia.
    rewrite length_map2.
    rewrite (shaped_nth (conj HlX HX)), (shaped_nth (conj HlY HY)) by lia.
    apply Nat.min_id.
Qed.

Lemma shaped_map {A B} (h : A -> B) (b a : nat) (X : list (list A)) :
  shaped b a X -> shaped b a (map (map h) X).
Proof.
  intros [HlX HX]. split.
  - now rewrite length_map.
  - apply Forall_map. rewrite Forall_forall in *. intros r Hr.
    rewrite length_map. now apply HX.
Qed.

Lemma nth_map_map_Rsum (t : list (list (list R))) (i j : nat) :
  nth j (nth i (map (map Rsum) t) []) 0 = Rsum (nth j (nth i t []) []).
Proof.
  change (@nil R) with (map Rsum []) at 1. rewrite map_nth.
  change 0 with (Rsum []) at 1. now rewrite map_nth.
Qed.

(** C6.  For a foreground mask, predicted boxes, target boxes and target
    class scores over the same (b, a) positions, the localization loss that
    [BboxLoss.forward] returns is the sum over all positions of the
    contribution of each (at a foreground position its weight, the sum of
    its target class scores, times one minus the complete-IoU of its
    predicted and target box, and nothing at any other position) divided by
    the normalization sum; the IoU tensor it returns covers all positions. *)
Theorem BboxLoss_forward_loss_iou
        (bbox_iou : list R -> list R -> R) (bbox2dist : list R -> list R -> R -> list R)
        (DFLoss : nat -> list R -> list R -> R) (reg_max b a : nat)
        (pred_dist pred_bboxes : list (list (list R))) (anchor_points : list (list R))
        (target_bboxes target_scores : list (list (list R)))
        (target_scores_sum : R) (fg_mask : list (list bool)) :
  shaped b a fg_mask -> shaped b a pred_bboxes -> shaped b a target_bboxes ->
  shaped b a target_scores ->
  fst (fst (BboxLoss_forward bbox_iou bbox2dist DFLoss reg_max pred_dist pred_bboxes
              anchor_points target_bboxes target_scores target_scores_sum fg_mask))
  = loss_iou_sum bbox_iou b a pred_bboxes target_bboxes target_scores fg_mask
    / target_scores_sum /\
  snd (BboxLoss_forward bbox_iou bbox2dist DFLoss reg_max pred_dist pred_bboxes
         anchor_points target_bboxes target_scores target_scores_sum fg_mask)
  = map2 (map2 bbox_iou) pred_bboxes target_bboxes.
Proof.
  intros Hf Hp Ht Hs. split; [|reflexivity].
  unfold BboxLoss_forward. cbn [fst]. unfold Rdiv. f_equal.
  assert (Hb : length fg_mask = b) by apply Hf. subst b.
  rewrite (Rsum_map2_select (fun i w => (1 - i) * w) 0 0 (a := a)); try assumption.
  - unfold loss_iou_sum. apply Rsum_map_ext_in. intros i Hi. apply in_seq in Hi.
    apply Rsum_map_ext_in. intros j Hj. apply in_seq in Hj.
    destruct (nth j (nth i fg_mask []) false); [|reflexivity].
    rewrite (@nth_map2 _ _ _ (map2 bbox_iou) pred_bboxes target_bboxes i [] [] [])
      by (destruct Hp, Ht; lia).
    rewrite (@nth_map2 _ _ _ bbox_iou _ _ j [] [] 0)
      by (rewrite (shaped_nth Hp) || rewrite (shaped_nth Ht); lia).
    rewrite (nth_map_map_Rsum target_scores i j).
    ring.
  - now apply shaped_map2.
  - now apply shaped_map.
Qed.

Lemma BboxLoss_forward_loss_iou_witness :
  shaped 1 2 [[true; false]] /\
  shaped 1 2 [[[0; 0; 2; 2]; [0; 0; 1; 1]]] /\
  shaped 1 2 [[[0; 0; 2; 2]; [1; 1; 3; 3]]] /\
  shaped 1 2 [[[1 / 2]; [0]]] /\
  fst (fst (BboxLoss_forward (fun _ _ => 1 / 4) (fun _ box _ => box) (fun _ _ _ => 0)
              1 [[[0; 0; 0; 0]; [0; 0; 0; 0]]]
              [[[0; 0; 2; 2]; [0; 0; 1; 1]]] [[1; 1]; [1; 1]]
              [[[0; 0; 2; 2]; [1; 1; 3; 3]]] [[[1 / 2]; [0]]] 1 [[true; false]]))
  = loss_iou_sum (fun _ _ => 1 / 4) 1 2 [[[0; 0; 2; 2]; [0; 0; 1; 1]]]
                 [[[0; 0; 2; 2]; [1; 1; 3; 3]]] [[[1 / 2]; [0]]] [[true; false]] / 1.
Proof.
  assert (Hf : shaped 1 2 [[true; false]]) by (repeat split; repeat constructor).
  assert (Hp : shaped 1 2 [[[0; 0; 2; 2]; [0; 0; 1; 1]]])
    by (repeat split; repeat constructor).
  assert (Ht : shaped 1 2 [[[0; 0; 2; 2]; [1; 1; 3; 3]]])
    by (repeat split; repeat constructor).
  assert (Hs : shaped 1 2 [[[1 / 2]; [0]]]) by (repeat split; repeat constructor).
  repeat (split; [assumption|]).
  exact (proj1 (@BboxLoss_forward_loss_iou (fun _ _ => 1 / 4) (fun _ box _ => box)
                  (fun _ _ _ => 0) 1 1 2 [[[0; 0; 0; 0]; [0; 0; 0; 0]]]
                  [[[0; 0; 2; 2]; [0; 0; 1; 1]]] [[1; 1]; [1; 1]]
                  [[[0; 0; 2; 2]; [1; 1; 3; 3]]] [[[1 / 2]; [0]]] 1 [[true; false]]
                  Hf Hp Ht Hs)).
Defined.

(** ** BoxCodec *)





Lemma map2_cons {A B C} (f : A -> B -> C) x xs y ys :
  map2 f (x :: xs) (y :: ys) = f x y :: map2 f xs ys.
Proof. reflexivity. Qed.

Lemma Rsum_cons (x : R) (l : list R) : Rsum (x :: l) = x + Rsum l.
Proof. reflexivity. Qed.


(** ** Embedding rows *)

Lemma Rsum_squares_nonneg (v : list R) : 0 <= Rsum (map (fun x => x * x) v).
Proof.
  induction v as [|x v IH]; cbn [map]; [unfold Rsum; simpl; lra|].
  rewrite Rsum_cons. pose proof (Rle_0_sqr x) as Hx. unfold Rsqr in Hx. lra.
Qed.

Lemma Rsum_squares_scaled (n : R) (v : list R) :
  n <> 0 ->
  Rsum (map (fun x => x * x) (map (fun x => x / n) v))
  = Rsum (map (fun x => x * x) v) / (n * n).
Proof.
  intros Hn. induction v as [|x v IH]; cbn [map].
  - unfold Rsum. simpl. field. assumption.
  - rewrite !Rsum_cons, IH. field. assumption.
Qed.

Lemma l2_norm_l2_normalize (v : list R) :
  l2_norm v <> 0 -> l2_norm (l2_normalize v) = 1.
Proof.
  intros Hn. unfold l2_normalize. unfold l2_norm at 1.
  rewrite Rsum_squares_scaled by assumption.
  unfold l2_norm. rewrite sqrt_sqrt by apply Rsum_squares_nonneg.
  replace (Rsum (map (fun x => x * x) v) / Rsum (map (fun x => x * x) v)) with 1.
  - apply sqrt_1.
  - field. intros Hz. apply Hn. unfold l2_norm. rewrite Hz. apply sqrt_0.
Qed.

Lemma l2_norm_one_squares (v : list R) :
  l2_norm v = 1 -> Rsum (map (fun x => x * x) v) = 1.
Proof.
  unfold l2_norm. intros Hs.
  rewrite <- (sqrt_sqrt (Rsum (map (fun x => x * x) v))) by apply Rsum_squares_nonneg.
  rewrite Hs. lra.
Qed.

Lemma in_mask_select1 {A} (m : list bool) (xs : list A) (x : A) :
  In x (mask_select1 m xs) -> In x xs.
Proof.
  unfold mask_select1. intros Hin. apply in_map_iff in Hin.
  destruct Hin as ([b0 y] & <- & Hf). apply filter_In in Hf.
  destruct Hf as [Hc _]. now apply in_combine_r in Hc.
Qed.

Lemma in_mask_select {A} (M : list (list bool)) (X : list (list A)) (x : A) :
  In x (mask_select M X) -> In x (concat X).
Proof.
  unfold mask_select, map2. intros Hin. apply in_concat in Hin.
  destruct Hin as (l & Hl & Hx). apply in_map_iff in Hl.
  destruct Hl as ([m r] & <- & Hc). simpl in Hx.
  apply in_concat. exists r. split.
  - now apply in_combine_r in Hc.
  - now apply in_mask_select1 in Hx.
Qed.

Lemma Rsum_squares_pos (v : list R) :
  Exists (fun x => x <> 0) v -> 0 < Rsum (map (fun x => x * x) v).
Proof.
  induction 1 as [x v Hx|x v _ IH]; cbn [map]; rewrite Rsum_cons.
  - pose proof (Rsum_squares_nonneg v). assert (0 < x * x) by nra. lra.
  - assert (0 <= x * x) by nra. lra.
Qed.

Lemma l2_norm_nonzero (v : list R) : Exists (fun x => x <> 0) v -> l2_norm v <> 0.
Proof.
  intros Hv. unfold l2_norm.
  pose proof (sqrt_lt_R0 _ (Rsum_squares_pos Hv)). lra.
Qed.

Lemma mask_select1_map {A B} (f : A -> B) (m : list bool) (xs : list A) :
  mask_select1 m (map f xs) = map f (mask_select1 m xs).
Proof.
  unfold mask_select1. revert xs.
  induction m as [|b0 m IH]; intros [|x xs]; simpl; try reflexivity.
  destruct b0; simpl; now rewrite IH.
Qed.

Lemma mask_select_map {A B} (f : A -> B) (M : list (list bool)) (X : list (list A)) :
  mask_select M (map (map f) X) = map f (mask_select M X).
Proof.
  unfold mask_select, map2. revert X.
  induction M as [|m M IH]; intros [|x X]; simpl; try reflexivity.
  rewrite map_app, IH, mask_select1_map. reflexivity.
Qed.

Lemma Forall2_map_self {A B} (P : B -> A -> Prop) (f : A -> B) (l : list A) :
  (forall v, In v l -> P (f v) v) -> Forall2 P (map f l) l.
Proof.
  induction l as [|v l IH]; intros HP; simpl; constructor.
  - apply HP. now left.
  - apply IH. intros w Hw. apply HP. now right.
Qed.

(** C4 (amended).  The predicted rows handed to [kd_loss] and [rkd_loss]
    are, one for one, the raw predicted vectors at the marked positions, each
    divided by its own L2 norm; such a row has L2 norm exactly 1 (in exact
    arithmetic) whenever its raw vector is not the zero vector, whatever the
    vectors at the other positions are.  The target rows handed to them are
    the rows of the assigner's [target_embeds] at the marked positions,
    unchanged. *)
Theorem embed_loss_inputs_rows (pred_embeds_raw target_embeds : list (list (list R)))
        (embed_mask : list (list bool)) :
  Forall2 (fun passed raw =>
             passed = map (fun x => x / l2_norm raw) raw /\
             (Exists (fun x => x <> 0) raw -> l2_norm passed = 1))
          (fst (embed_loss_inputs pred_embeds_raw target_embeds embed_mask))
          (mask_select embed_mask pred_embeds_raw) /\
  snd (embed_loss_inputs pred_embeds_raw target_embeds embed_mask)
  = mask_select embed_mask target_embeds /\
  incl (snd (embed_loss_inputs pred_embeds_raw target_embeds embed_mask))
       (concat target_embeds).
Proof.
  unfold embed_loss_inputs. cbn [fst snd]. split; [|split].
  - unfold normalize_embeds. rewrite mask_select_map.
    apply Forall2_map_self. intros raw _. split; [reflexivity|].
    intros Hraw. apply l2_norm_l2_normalize. now apply l2_norm_nonzero.
  - reflexivity.
  - intros t Ht. now apply in_mask_select in Ht.
Qed.

Lemma l2_norm_3_4 : l2_norm [3; 4] = 5.
Proof.
  unfold l2_norm. simpl. unfold Rsum. simpl.
  replace (3 * 3 + (4 * 4 + 0)) with (5 * 5) by lra.
  apply sqrt_square. lra.
Qed.

(** One image of two positions: the unmarked one holds the zero vector. *)
Lemma embed_loss_inputs_rows_witness :
  unit_rows (fst (embed_loss_inputs [[[0; 0]; [3; 4]]] [[[1; 0]; [0; 1]]] [[false; true]])) /\
  snd (embed_loss_inputs [[[0; 0]; [3; 4]]] [[[1; 0]; [0; 1]]] [[false; true]]) = [[0; 1]].
Proof.
  destruct (@embed_loss_inputs_rows [[[0; 0]; [3; 4]]] [[[1; 0]; [0; 1]]] [[false; true]])
    as (Hpred & Htarget & _).
  split; [|exact Htarget].
  change (Forall2 (fun passed raw : list R =>
                     passed = map (fun x => x / l2_norm raw) raw /\
                     (Exists (fun x => x <> 0) raw -> l2_norm passed = 1))
                  [l2_normalize [3; 4]] [[3; 4]]) in Hpred.
  change (unit_rows [l2_normalize [3; 4]]).
  inversion Hpred as [|passed raw ps rs [_ Hunit] _]; subst.
  constructor; [|constructor].
  apply Hunit. apply Exists_cons_hd. lra.
Defined.

(** C4 (as stated) fails on both sides.  A raw predicted vector of zeros is
    divided by its zero norm (the quotient is NaN in floating point and 0
    in the real model: not a unit vector either way), and a target row is
    whatever the assigner returned, here a row of norm 5. *)
Lemma embedding_rows_not_unit :
  ~ unit_rows (fst (embed_loss_inputs [[[0; 0]]] [[[3; 4]]] [[true]])) /\
  ~ unit_rows (snd (embed_loss_inputs [[[0; 0]]] [[[3; 4]]] [[true]])).
Proof.
  split; intros Hu.
  - inversion Hu as [|v rows Hv _]; subst.
    apply l2_norm_one_squares in Hv. unfold l2_normalize in Hv.
    simpl in Hv. unfold Rsum in Hv. simpl in Hv.
    unfold Rdiv in Hv. rewrite !Rmult_0_l in Hv. lra.
  - inversion Hu as [|v rows Hv _]; subst.
    rewrite l2_norm_3_4 in Hv. lra.
Qed.

(** ** [__call__] without a foreground position *)

Lemma mask_sum_all_false {A} (X : list (list A)) :
  mask_sum (map (map (fun _ => false)) X) = 0%nat.
Proof.
  unfold mask_sum. induction X as [|r X IH]; simpl; [reflexivity|].
  rewrite IH. unfold count_true.
  induction r as [|x r IHr]; simpl; [reflexivity|exact IHr].
Qed.

Section CallFacts.
Variable xywh2xyxy : list R -> list R.
Variable dist2bbox : list R -> list R -> list R.
Variable bbox_iou : list R -> list R -> R.
Variable bbox2dist : list R -> list R -> R -> list R.
Variable DFLoss : nat -> list R -> list R -> R.
Variable kd_loss rkd_loss : list (list R) -> list (list R) -> R.
Variable topk_idx : list R -> nat -> list nat.

(** [iou_scores] is bound inside [if fg_mask.sum():] only, and read after
    it. *)
Lemma call_after_assignment_unbound (hyp : gains) (reg_max : nat)
      (pred_scores pred_distri pred_embeds pred_bboxes : list (list (list R)))
      (anchor_points : list (list R)) (stride_tensor : list R)
      (asg : assignment) (embed_topk : nat) :
  mask_sum (fg_mask asg) = 0%nat ->
  call_after_assignment bbox_iou bbox2dist DFLoss kd_loss rkd_loss topk_idx
    hyp reg_max pred_scores pred_distri pred_embeds pred_bboxes
    anchor_points stride_tensor asg embed_topk
  = raise (UnboundLocalError "iou_scores").
Proof.
  intros Hfg. unfold call_after_assignment. rewrite Hfg. reflexivity.
Qed.

Lemma preprocess_empty (cols batch_size : nat) (scale_tensor : list R) :
  (1 <= cols)%nat ->
  preprocess xywh2xyxy (Tensor2 cols []) batch_size scale_tensor
  = ok (Tensor3 (batch_size, 0, cols - 1)%nat (repeat [] batch_size)).
Proof.
  intros Hcols. unfold preprocess, torch_zeros. simpl.
  destruct (Z.ltb_spec (Z.of_nat cols - 1) 0) as [Hneg|_]; [lia|].
  replace (Z.to_nat (Z.of_nat cols - 1)) with (cols - 1)%nat by lia.
  reflexivity.
Qed.

Lemma preprocess_embedding_empty (cols batch_size : nat) :
  (1 <= cols)%nat ->
  preprocess_embedding (Tensor2 cols []) batch_size
  = ok (Tensor3 (batch_size, 0, cols - 1)%nat (repeat [] batch_size)).
Proof.
  intros Hcols. unfold preprocess_embedding, torch_zeros. simpl.
  destruct (Z.ltb_spec (Z.of_nat cols - 1) 0) as [Hneg|_]; [lia|].
  replace (Z.to_nat (Z.of_nat cols - 1)) with (cols - 1)%nat by lia.
  reflexivity.
Qed.
End CallFacts.

(** C1 (the code, on a batch without annotations).  When the batch has no
    instance and the assigner marks no position foreground for an empty
    ground truth, [__call__] does not return: the read of [iou_scores] at
    line 177 raises [UnboundLocalError], because the only assignment to
    that name sits inside [if fg_mask.sum():].  When [batch_idx] is empty
    and another annotation tensor is not, [torch.cat] refuses the batch and
    the call does not return either. *)
Theorem call_without_annotations_raises
        (xywh2xyxy : list R -> list R) (dist2bbox : list R -> list R -> list R)
        (bbox_iou : list R -> list R -> R) (bbox2dist : list R -> list R -> R -> list R)
        (DFLoss : nat -> list R -> list R -> R)
        (kd_loss rkd_loss : list (list R) -> list (list R) -> R)
        (topk_idx : list R -> nat -> list nat)
        (assigner :
           list (list (list R)) -> list (list (list R)) -> list (list (list R)) ->
           list (list R) ->
           list (list (list R)) -> list (list (list R)) -> tensor3 -> list (list bool) ->
           assignment)
        (hyp : gains) (reg_max : nat)
        (pred_scores pred_distri pred_embeds_raw : list (list (list R)))
        (imgsz : R * R) (anchor_points : list (list R)) (stride_tensor : list R)
        (batch : annotations) (embed_topk : nat) :
  batch_idx batch = [] -> t2_cols (bboxes batch) = 4%nat ->
  (forall ps pb pe anc gl gb ge mg,
      Forall (fun img => img = []) gb ->
      mask_sum (fg_mask (assigner ps pb pe anc gl gb ge mg)) = 0%nat) ->
  (exists e,
      call xywh2xyxy dist2bbox bbox_iou bbox2dist DFLoss kd_loss rkd_loss topk_idx assigner
           hyp reg_max pred_scores pred_distri pred_embeds_raw imgsz anchor_points
           stride_tensor batch embed_topk
      = raise e) /\
  (cls batch = [] -> t2_rows (bboxes batch) = [] -> t2_rows (embedding batch) = [] ->
   call xywh2xyxy dist2bbox bbox_iou bbox2dist DFLoss kd_loss rkd_loss topk_idx assigner
        hyp reg_max pred_scores pred_distri pred_embeds_raw imgsz anchor_points
        stride_tensor batch embed_topk
   = raise (UnboundLocalError "iou_scores")).
Proof.
  intros Hidx Hcols Hbg.
  assert (Hempty :
    cls batch = [] -> t2_rows (bboxes batch) = [] -> t2_rows (embedding batch) = [] ->
    call xywh2xyxy dist2bbox bbox_iou bbox2dist DFLoss kd_loss rkd_loss topk_idx assigner
         hyp reg_max pred_scores pred_distri pred_embeds_raw imgsz anchor_points
         stride_tensor batch embed_topk
    = raise (UnboundLocalError "iou_scores")).
  { intros Hcls Hbox Hemb. unfold call. destruct imgsz as [h w].
    unfold cat_targets, cat_embedding. rewrite Hidx, Hcls, Hbox, Hemb, Hcols.
    cbn [length Nat.eqb andb combine]. rewrite !bind_ok.
    change (map2 (fun ic box => fst ic :: snd ic :: box) [] []) with (@nil (list R)).
    rewrite preprocess_empty by lia. rewrite !bind_ok.
    change (map2 (@cons R) [] []) with (@nil (list R)).
    rewrite preprocess_embedding_empty by lia.
    cbn [bind split_1_4 t3_shape t3_data Nat.eqb Nat.sub Nat.add].
    apply call_after_assignment_unbound. apply Hbg.
    apply Forall_forall. intros img Himg. apply in_map_iff in Himg.
    destruct Himg as (x & <- & Hx). apply repeat_spec in Hx. subst x. reflexivity. }
  split; [|exact Hempty].
  destruct (cls batch) as [|c cs] eqn:Hcls.
  - destruct (t2_rows (bboxes batch)) as [|bx bxs] eqn:Hbox.
    + destruct (t2_rows (embedding batch)) as [|em ems] eqn:Hemb.
      * exists (UnboundLocalError "iou_scores"). now apply Hempty.
      * exists cat_sizes_error. unfold call. destruct imgsz as [h w].
        unfold cat_targets, cat_embedding. rewrite Hidx, Hcls, Hbox, Hemb, Hcols.
        cbn [length Nat.eqb andb combine]. rewrite !bind_ok.
        change (map2 (fun ic box => fst ic :: snd ic :: box) [] []) with (@nil (list R)).
        rewrite preprocess_empty by lia. rewrite !bind_ok. reflexivity.
    + exists cat_sizes_error. unfold call. destruct imgsz as [h w].
      unfold cat_targets. rewrite Hidx, Hcls, Hbox. reflexivity.
  - exists cat_sizes_error. unfold call. destruct imgsz as [h w].
    unfold cat_targets. rewrite Hidx, Hcls. reflexivity.
Qed.

(** C8 (the code, without a foreground position).  Whatever the predictions
    and the rest of the assignment are, when the foreground mask the
    assigner returns is all false the part of [__call__] after the
    assignment raises [UnboundLocalError] at line 177: there is no total
    loss and no per-term breakdown. *)
Theorem call_after_assignment_no_foreground
        (bbox_iou : list R -> list R -> R) (bbox2dist : list R -> list R -> R -> list R)
        (DFLoss : nat -> list R -> list R -> R)
        (kd_loss rkd_loss : list (list R) -> list (list R) -> R)
        (topk_idx : list R -> nat -> list nat)
        (hyp : gains) (reg_max : nat)
        (pred_scores pred_distri pred_embeds pred_bboxes : list (list (list R)))
        (anchor_points : list (list R)) (stride_tensor : list R)
        (target_bboxes target_scores target_embeds : list (list (list R)))
        (shape : list (list bool)) (target_gt_idx : list (list Z)) (embed_topk : nat) :
  call_after_assignment bbox_iou bbox2dist DFLoss kd_loss rkd_loss topk_idx
    hyp reg_max pred_scores pred_distri pred_embeds pred_bboxes
    anchor_points stride_tensor
    (Assignment target_bboxes target_scores target_embeds (zeros_like shape) target_gt_idx)
    embed_topk
  = raise (UnboundLocalError "iou_scores") /\
  forall total loss fg,
    call_after_assignment bbox_iou bbox2dist DFLoss kd_loss rkd_loss topk_idx
      hyp reg_max pred_scores pred_distri pred_embeds pred_bboxes
      anchor_points stride_tensor
      (Assignment target_bboxes target_scores target_embeds (zeros_like shape) target_gt_idx)
      embed_topk
    <> ok (total, loss, fg).
Proof.
  assert (Hraise :
    call_after_assignment bbox_iou bbox2dist DFLoss kd_loss rkd_loss topk_idx
      hyp reg_max pred_scores pred_distri pred_embeds pred_bboxes
      anchor_points stride_tensor
      (Assignment target_bboxes target_scores target_embeds (zeros_like shape) target_gt_idx)
      embed_topk
    = raise (UnboundLocalError "iou_scores")).
  { apply call_after_assignment_unbound. cbn [fg_mask]. apply mask_sum_all_false. }
  split; [exact Hraise|].
  intros total loss fg. rewrite Hraise. discriminate.
Qed.

Lemma call_without_annotations_raises_witness :
  batch_idx empty_batch = [] /\ t2_cols (bboxes empty_batch) = 4%nat /\
  (forall ps pb pe anc gl gb ge mg,
      Forall (fun img => img = []) gb ->
      mask_sum (fg_mask (background_assigner ps pb pe anc gl gb ge mg)) = 0%nat) /\
  call (fun box => box) (fun d _ => d) (fun _ _ => 0) (fun _ box _ => box)
       (fun _ _ _ => 0) (fun _ _ => 0) (fun _ _ => 0) topk_stable background_assigner
       default_gains 2 [[[0]; [0]]]
       [[[0; 0; 0; 0; 0; 0; 0; 0]; [0; 0; 0; 0; 0; 0; 0; 0]]]
       [[[1; 0]; [0; 1]]] (64, 64) [[1 / 2; 1 / 2]; [3 / 2; 1 / 2]] [32; 32]
       empty_batch 3
  = raise (UnboundLocalError "iou_scores").
Proof.
  assert (Hbg : forall ps pb pe anc gl gb ge mg,
             Forall (fun img : list (list R) => img = []) gb ->
             mask_sum (fg_mask (background_assigner ps pb pe anc gl gb ge mg)) = 0%nat).
  { intros. unfold background_assigner. cbn [fg_mask]. apply mask_sum_all_false. }
  split; [reflexivity|]. split; [reflexivity|]. split; [exact Hbg|].
  apply (proj2 (@call_without_annotations_raises
                  (fun box => box) (fun d _ => d) (fun _ _ => 0) (fun _ box _ => box)
                  (fun _ _ _ => 0) (fun _ _ => 0) (fun _ _ => 0) topk_stable
                  background_assigner default_gains 2 [[[0]; [0]]]
                  [[[0; 0; 0; 0; 0; 0; 0; 0]; [0; 0; 0; 0; 0; 0; 0; 0]]]
                  [[[1; 0]; [0; 1]]] (64, 64) [[1 / 2; 1 / 2]; [3 / 2; 1 / 2]] [32; 32]
                  empty_batch 3 eq_refl eq_refl Hbg));
    reflexivity.
Defined.

(** ** [__call__] with a foreground position

    The counterpart of the two results above: as soon as one position is
    foreground the read of [iou_scores] succeeds and the call returns the
    four gain-scaled terms and their sum. *)

Lemma shaped_rows_map2 {A B C} (f : A -> B -> C) (b a : nat)
      (X : list (list A)) (ys : list B) :
  shaped b a X -> length ys = a -> shaped b a (map (fun r => map2 f r ys) X).
Proof.
  intros [HlX HX] Hy. split.
  - now rewrite length_map.
  - apply Forall_map. rewrite Forall_forall in *. intros r Hr.
    rewrite length_map2, (HX r Hr), Hy. apply Nat.min_id.
Qed.

Lemma call_after_assignment_returns
      (bbox_iou : list R -> list R -> R) (bbox2dist : list R -> list R -> R -> list R)
      (DFLoss : nat -> list R -> list R -> R)
      (kd_loss rkd_loss : list (list R) -> list (list R) -> R)
      (topk_idx : list R -> nat -> list nat)
      (hyp : gains) (reg_max b a : nat)
      (pred_scores pred_distri pred_embeds pred_bboxes : list (list (list R)))
      (anchor_points : list (list R)) (stride_tensor : list R)
      (asg : assignment) (embed_topk : nat) :
  mask_sum (fg_mask asg) <> 0%nat ->
  shaped b a pred_bboxes -> shaped b a (target_bboxes asg) ->
  shaped b a (target_scores asg) -> shaped b a (target_gt_idx asg) ->
  shaped b a (fg_mask asg) -> length stride_tensor = a -> (embed_topk <= a)%nat ->
  exists embed_mask loss_iou loss_dfl,
    call_after_assignment bbox_iou bbox2dist DFLoss kd_loss rkd_loss topk_idx
      hyp reg_max pred_scores pred_distri pred_embeds pred_bboxes
      anchor_points stride_tensor asg embed_topk
    = ok (Rsum [ loss_iou * box_gain hyp;
                 cls_loss pred_scores (target_scores asg) * cls_gain hyp;
                 loss_dfl * dfl_gain hyp;
                 (kd_loss (mask_select embed_mask pred_embeds)
                          (mask_select embed_mask (target_embeds asg))
                  + rkd_loss (mask_select embed_mask (target_embeds asg))
                             (mask_select embed_mask pred_embeds)) * embed_gain hyp ],
          [ loss_iou * box_gain hyp;
            cls_loss pred_scores (target_scores asg) * cls_gain hyp;
            loss_dfl * dfl_gain hyp;
            (kd_loss (mask_select embed_mask pred_embeds)
                     (mask_select embed_mask (target_embeds asg))
             + rkd_loss (mask_select embed_mask (target_embeds asg))
                        (mask_select embed_mask pred_embeds)) * embed_gain hyp ],
          fg_mask asg).
Proof.
  intros Hfg Hp Ht Hs Hi Hf Hstride Hk.
  unfold call_after_assignment.
  destruct (Nat.eqb_spec (mask_sum (fg_mask asg)) 0) as [Hz|_]; [contradiction|].
  unfold BboxLoss_forward. cbn [bind load_local ok].
  set (iou := map2 (map2 bbox_iou) pred_bboxes
                (map (fun boxes => map2 (fun box s => map (fun x => x / s) box)
                                        boxes stride_tensor) (target_bboxes asg))).
  assert (Hiou : shaped b a iou).
  { apply shaped_map2; [assumption|]. now apply shaped_rows_map2. }
  set (scores := map2 (map2 (fun i sc => Rsum (map (Rmult i) sc))) iou (target_scores asg)).
  assert (Hsc : shaped b a scores) by now apply shaped_map2.
  destruct (embed_select_zeros topk_idx Hsc Hi Hf Hk) as (embed_mask & Hrun & _ & _).
  rewrite Hrun. cbn [bind ok].
  eexists embed_mask, _, _. reflexivity.
Qed.

(** ** Signs of the loss terms *)

Lemma Rsum_nonneg (l : list R) : Forall (fun x => 0 <= x) l -> 0 <= Rsum l.
Proof.
  induction 1 as [|x l Hx Hl IH]; [unfold Rsum; simpl; lra|].
  rewrite Rsum_cons. lra.
Qed.

Lemma Forall_map2 {A B C} (P : C -> Prop) (f : A -> B -> C) (xs : list A) (ys : list B) :
  (forall x y, In x xs -> In y ys -> P (f x y)) -> Forall P (map2 f xs ys).
Proof.
  intros Hf. unfold map2. apply Forall_forall. intros c Hc.
  apply in_map_iff in Hc. destruct Hc as ([x y] & <- & Hxy).
  apply Hf; [eapply in_combine_l|eapply in_combine_r]; exact Hxy.
Qed.

Lemma sigmoid_bounds (x : R) : 0 < sigmoid x < 1.
Proof.
  unfold sigmoid. pose proof (exp_pos (- x)) as He.
  set (e := exp (- x)) in *.
  assert (Hs : 0 < 1 / (1 + e)) by (apply Rdiv_lt_0_compat; lra).
  split; [exact Hs|].
  assert (Heq : 1 / (1 + e) * (1 + e) = 1) by (field; lra).
  nra.
Qed.

Lemma ln_neg (a : R) : 0 < a < 1 -> ln a < 0.
Proof.
  intros [H0 H1]. rewrite <- ln_1. now apply ln_increasing.
Qed.

Lemma bce_with_logits_nonneg (x y : R) : 0 <= y <= 1 -> 0 <= bce_with_logits x y.
Proof.
  intros Hy. unfold bce_with_logits.
  pose proof (sigmoid_bounds x) as Hs.
  assert (Ha : ln (sigmoid x) < 0) by (apply ln_neg; lra).
  assert (Hb : ln (1 - sigmoid x) < 0) by (apply ln_neg; lra).
  nra.
Qed.

Lemma target_scores_sum_pos (target_scores : list (list (list R))) :
  1 <= target_scores_sum_of target_scores.
Proof.
  unfold target_scores_sum_of. rewrite py_max_Rmax. apply Rmax_r.
Qed.

Lemma Rsum3_nonneg (t : list (list (list R))) :
  Forall (Forall (Forall (fun x => 0 <= x))) t -> 0 <= Rsum3 t.
Proof.
  intros Ht. unfold Rsum3, Rsum2. apply Rsum_nonneg, Forall_map.
  eapply Forall_impl; [|exact Ht]. intros img Himg.
  apply Rsum_nonneg, Forall_map.
  eapply Forall_impl; [|exact Himg]. intros row Hrow. now apply Rsum_nonneg.
Qed.

Lemma Rdiv_nonneg (x y : R) : 0 <= x -> 0 < y -> 0 <= x / y.
Proof.
  intros Hx Hy. unfold Rdiv. apply Rmult_le_pos; [assumption|].
  left. now apply Rinv_0_lt_compat.
Qed.

(** X1.  The classification loss of [__call__] is non-negative whenever
    every target class score lies in [0, 1], whatever the predicted
    logits. *)
Theorem cls_loss_nonneg (pred_scores target_scores : list (list (list R))) :
  Forall (Forall (Forall (fun y => 0 <= y <= 1))) target_scores ->
  0 <= cls_loss pred_scores target_scores.
Proof.
  intros Ht. unfold cls_loss. apply Rdiv_nonneg.
  - apply Rsum3_nonneg. apply Forall_map2. intros p t _ Hti.
    rewrite Forall_forall in Ht. specialize (Ht t Hti).
    apply Forall_map2. intros pr tr _ Htr.
    rewrite Forall_forall in Ht. specialize (Ht tr Htr).
    apply Forall_map2. intros x y _ Hy.
    rewrite Forall_forall in Ht. apply bce_with_logits_nonneg. now apply Ht.
  - pose proof (target_scores_sum_pos target_scores). lra.
Qed.

Lemma cls_loss_nonneg_witness :
  Forall (Forall (Forall (fun y => 0 <= y <= 1))) [[[1 / 2]; [0]]] /\
  0 <= cls_loss [[[3]; [-2]]] [[[1 / 2]; [0]]].
Proof.
  assert (Ht : Forall (Forall (Forall (fun y => 0 <= y <= 1))) [[[1 / 2]; [0]]]).
  { repeat constructor; lra. }
  split; [exact Ht|]. exact (@cls_loss_nonneg [[[3]; [-2]]] [[[1 / 2]; [0]]] Ht).
Defined.

(** ** [BboxLoss.forward]: signs, empty selection, frame *)

Lemma in_concat_map2_map2 {A B C} (f : A -> B -> C)
      (X : list (list A)) (Y : list (list B)) (c : C) :
  In c (concat (map2 (map2 f) X Y)) -> exists x y, c = f x y.
Proof.
  intros Hc. apply in_concat in Hc. destruct Hc as (l & Hl & Hc).
  unfold map2 in Hl. apply in_map_iff in Hl. destruct Hl as ([xs ys] & <- & _).
  unfold map2 in Hc. apply in_map_iff in Hc. destruct Hc as ([x y] & <- & _).
  now exists x, y.
Qed.

Lemma in_concat_map_map {A B} (h : A -> B) (X : list (list A)) (c : B) :
  In c (concat (map (map h) X)) -> exists r x, In r X /\ In x r /\ c = h x.
Proof.
  intros Hc. apply in_concat in Hc. destruct Hc as (l & Hl & Hc).
  apply in_map_iff in Hl. destruct Hl as (r & <- & Hr).
  apply in_map_iff in Hc. destruct Hc as (x & <- & Hx).
  now exists r, x.
Qed.

Lemma weight_nonneg (target_scores : list (list (list R))) (fg_mask : list (list bool)) :
  Forall (Forall (Forall (fun y => 0 <= y))) target_scores ->
  Forall (fun w => 0 <= w) (mask_select fg_mask (map (map Rsum) target_scores)).
Proof.
  intros Ht. apply Forall_forall. intros w Hw.
  apply in_mask_select, in_concat_map_map in Hw.
  destruct Hw as (img & sc & Himg & Hsc & ->).
  rewrite Forall_forall in Ht. specialize (Ht img Himg).
  rewrite Forall_forall in Ht. specialize (Ht sc Hsc).
  now apply Rsum_nonneg.
Qed.

(** X2.  When the IoU primitive never exceeds 1, the distribution focal loss
    primitive is never negative, no target class score is negative and the
    normalization sum is positive, both losses that [BboxLoss.forward]
    returns are non-negative. *)
Theorem BboxLoss_forward_nonneg
        (bbox_iou : list R -> list R -> R) (bbox2dist : list R -> list R -> R -> list R)
        (DFLoss : nat -> list R -> list R -> R) (reg_max : nat)
        (pred_dist pred_bboxes : list (list (list R))) (anchor_points : list (list R))
        (target_bboxes target_scores : list (list (list R)))
        (target_scores_sum : R) (fg_mask : list (list bool)) :
  (forall p t, bbox_iou p t <= 1) ->
  (forall r d t, 0 <= DFLoss r d t) ->
  Forall (Forall (Forall (fun y => 0 <= y))) target_scores ->
  0 < target_scores_sum ->
  0 <= fst (fst (BboxLoss_forward bbox_iou bbox2dist DFLoss reg_max pred_dist pred_bboxes
                   anchor_points target_bboxes target_scores target_scores_sum fg_mask)) /\
  0 <= snd (fst (BboxLoss_forward bbox_iou bbox2dist DFLoss reg_max pred_dist pred_bboxes
                   anchor_points target_bboxes target_scores target_scores_sum fg_mask)).
Proof.
  intros Hiou Hdfl Ht Hsum. unfold BboxLoss_forward. cbn [fst snd].
  pose proof (weight_nonneg fg_mask Ht) as Hw. rewrite Forall_forall in Hw.
  split.
  - apply Rdiv_nonneg; [|assumption]. apply Rsum_nonneg, Forall_map2.
    intros i w Hi Hwi. apply in_mask_select, in_concat_map2_map2 in Hi.
    destruct Hi as (p & t & ->). specialize (Hiou p t). specialize (Hw w Hwi). nra.
  - destruct (1 <? reg_max)%nat; [|lra].
    apply Rdiv_nonneg; [|assumption]. apply Rsum_nonneg, Forall_map2.
    intros d w Hd Hwi. specialize (Hw w Hwi).
    assert (Hd0 : 0 <= d).
    { revert Hd. generalize (mask_select fg_mask pred_dist).
      intros l1 Hd. unfold map2 in Hd. apply in_map_iff in Hd.
      destruct Hd as ([x y] & <- & _). apply Hdfl. }
    nra.
Qed.

Lemma BboxLoss_forward_nonneg_witness :
  (forall p t : list R, (fun _ _ => 1 / 4) p t <= 1) /\
  (forall (r : nat) (d t : list R), 0 <= (fun _ _ _ => 1) r d t) /\
  Forall (Forall (Forall (fun y => 0 <= y))) [[[1 / 2]; [0]]] /\
  0 < 1 /\
  0 <= fst (fst (BboxLoss_forward (fun _ _ => 1 / 4) (fun _ box _ => box) (fun _ _ _ => 1)
                   2 flat_logits
                   [[[0; 0; 2; 2]; [0; 0; 1; 1]]] [[1; 1]; [1; 1]]
                   [[[0; 0; 2; 2]; [1; 1; 3; 3]]] [[[1 / 2]; [0]]] 1 [[true; false]])).
Proof.
  assert (Hiou : forall p t : list R, (fun _ _ => 1 / 4) p t <= 1) by (intros; lra).
  assert (Hdfl : forall (r : nat) (d t : list R), 0 <= (fun _ _ _ => 1) r d t)
    by (intros; lra).
  assert (Ht : Forall (Forall (Forall (fun y => 0 <= y))) [[[1 / 2]; [0]]])
    by (repeat constructor; lra).
  assert (Hs : 0 < 1) by lra.
  repeat (split; [assumption|]).
  exact (proj1 (@BboxLoss_forward_nonneg (fun _ _ => 1 / 4) (fun _ box _ => box)
                  (fun _ _ _ => 1) 2 _ _ _ _ _ 1 [[true; false]] Hiou Hdfl Ht Hs)).
Defined.

Lemma mask_select1_none {A} (m : list bool) (xs : list A) :
  count_true m = 0%nat -> mask_select1 m xs = [].
Proof.
  unfold mask_select1, count_true. revert xs.
  induction m as [|b0 m IH]; intros [|x xs] Hc; simpl in *; try reflexivity.
  destruct b0; simpl in *; [discriminate|]. now apply IH.
Qed.

Lemma mask_select_none {A} (M : list (list bool)) (X : list (list A)) :
  mask_sum M = 0%nat -> mask_select M X = [].
Proof.
  unfold mask_select, mask_sum, map2. revert X.
  induction M as [|m M IH]; intros [|x X] Hc; simpl in *; try reflexivity.
  rewrite mask_select1_none by lia. simpl. apply IH. lia.
Qed.

(** X3.  On a foreground mask without a true entry [BboxLoss.forward] needs
    no guard: the selections are empty, and it returns 0 for the localization
    loss and 0 for the distribution focal loss, together with the IoU of
    every position. *)
Theorem BboxLoss_forward_no_foreground
        (bbox_iou : list R -> list R -> R) (bbox2dist : list R -> list R -> R -> list R)
        (DFLoss : nat -> list R -> list R -> R) (reg_max : nat)
        (pred_dist pred_bboxes : list (list (list R))) (anchor_points : list (list R))
        (target_bboxes target_scores : list (list (list R)))
        (target_scores_sum : R) (fg_mask : list (list bool)) :
  mask_sum fg_mask = 0%nat -> 0 < target_scores_sum ->
  BboxLoss_forward bbox_iou bbox2dist DFLoss reg_max pred_dist pred_bboxes
    anchor_points target_bboxes target_scores target_scores_sum fg_mask
  = (0, 0, map2 (map2 bbox_iou) pred_bboxes target_bboxes).
Proof.
  intros Hfg _. unfold BboxLoss_forward.
  rewrite !mask_select_none by exact Hfg.
  assert (Hz : Rsum [] / target_scores_sum = 0).
  { unfold Rsum, Rdiv. simpl. apply Rmult_0_l. }
  change (map2 (fun i w : R => (1 - i) * w) [] []) with (@nil R).
  change (map2 Rmult (map2 (DFLoss reg_max) [] []) []) with (@nil R).
  rewrite Hz. destruct (1 <? reg_max)%nat; reflexivity.
Qed.

Lemma BboxLoss_forward_no_foreground_witness :
  mask_sum [[false; false]] = 0%nat /\ 0 < 1 /\
  BboxLoss_forward (fun _ _ => 1 / 4) (fun _ box _ => box) (fun _ _ _ => 1)
    2 flat_logits
    [[[0; 0; 2; 2]; [0; 0; 1; 1]]] [[1; 1]; [1; 1]]
    [[[0; 0; 2; 2]; [1; 1; 3; 3]]] [[[0]; [0]]] 1 [[false; false]]
  = (0, 0, [[1 / 4; 1 / 4]]).
Proof.
  split; [reflexivity|]. split; [lra|].
  exact (@BboxLoss_forward_no_foreground (fun _ _ => 1 / 4) (fun _ box _ => box)
           (fun _ _ _ => 1) 2 flat_logits
           [[[0; 0; 2; 2]; [0; 0; 1; 1]]] [[1; 1]; [1; 1]]
           [[[0; 0; 2; 2]; [1; 1; 3; 3]]] [[[0]; [0]]] 1 [[false; false]] eq_refl
           ltac:(lra)).
Defined.

Lemma loss_iou_as_sum
      (bbox_iou : list R -> list R -> R) (bbox2dist : list R -> list R -> R -> list R)
      (DFLoss : nat -> list R -> list R -> R) (reg_max b a : nat)
      (pred_dist pred_bboxes : list (list (list R))) (anchor_points : list (list R))
      (target_bboxes target_scores : list (list (list R)))
      (target_scores_sum : R) (fg_mask : list (list bool)) :
  shaped b a fg_mask -> shaped b a pred_bboxes -> shaped b a target_bboxes ->
  shaped b a target_scores ->
  fst (fst (BboxLoss_forward bbox_iou bbox2dist DFLoss reg_max pred_dist pred_bboxes
              anchor_points target_bboxes target_scores target_scores_sum fg_mask))
  = loss_iou_sum bbox_iou b a pred_bboxes target_bboxes target_scores fg_mask
    / target_scores_sum.
Proof.
  intros Hf Hp Ht Hs.
  unfold BboxLoss_forward. cbn [fst]. unfold Rdiv. f_equal.
  assert (Hb : length fg_mask = b) by apply Hf. subst b.
  rewrite (Rsum_map2_select (fun i w => (1 - i) * w) 0 0 (a := a)); try assumption.
  - unfold loss_iou_sum. apply Rsum_map_ext_in. intros i Hi. apply in_seq in Hi.
    apply Rsum_map_ext_in. intros j Hj. apply in_seq in Hj.
    destruct (nth j (nth i fg_mask []) false); [|reflexivity].
    rewrite (@nth_map2 _ _ _ (map2 bbox_iou) pred_bboxes target_bboxes i [] [] [])
      by (destruct Hp, Ht; lia).
    rewrite (@nth_map2 _ _ _ bbox_iou _ _ j [] [] 0)
      by (rewrite (shaped_nth Hp) || rewrite (shaped_nth Ht); lia).
    rewrite (nth_map_map_Rsum target_scores i j).
    ring.
  - now apply shaped_map2.
  - now apply shaped_map.
Qed.

(** X4.  The localization loss of [BboxLoss.forward] reads the predicted
    boxes, target boxes and target class scores at foreground positions
    only: two calls with the same mask and normalization sum whose inputs
    agree wherever the mask is true return the same localization loss,
    whatever the inputs hold elsewhere and whatever the distribution logits
    and anchor points are. *)
Theorem BboxLoss_forward_frame
        (bbox_iou : list R -> list R -> R) (bbox2dist : list R -> list R -> R -> list R)
        (DFLoss : nat -> list R -> list R -> R) (reg_max b a : nat)
        (pred_dist1 pred_dist2 pred_bboxes1 pred_bboxes2 : list (list (list R)))
        (anchor_points1 anchor_points2 : list (list R))
        (target_bboxes1 target_bboxes2 target_scores1 target_scores2 : list (list (list R)))
        (target_scores_sum : R) (fg_mask : list (list bool)) :
  shaped b a fg_mask ->
  shaped b a pred_bboxes1 -> shaped b a target_bboxes1 -> shaped b a target_scores1 ->
  shaped b a pred_bboxes2 -> shaped b a target_bboxes2 -> shaped b a target_scores2 ->
  (forall i j, nth j (nth i fg_mask []) false = true ->
     nth j (nth i pred_bboxes1 []) [] = nth j (nth i pred_bboxes2 []) [] /\
     nth j (nth i target_bboxes1 []) [] = nth j (nth i target_bboxes2 []) [] /\
     nth j (nth i target_scores1 []) [] = nth j (nth i target_scores2 []) []) ->
  fst (fst (BboxLoss_forward bbox_iou bbox2dist DFLoss reg_max pred_dist1 pred_bboxes1
              anchor_points1 target_bboxes1 target_scores1 target_scores_sum fg_mask))
  = fst (fst (BboxLoss_forward bbox_iou bbox2dist DFLoss reg_max pred_dist2 pred_bboxes2
                anchor_points2 target_bboxes2 target_scores2 target_scores_sum fg_mask)).
Proof.
  intros Hf Hp1 Ht1 Hs1 Hp2 Ht2 Hs2 Hagree.
  rewrite (loss_iou_as_sum bbox_iou bbox2dist DFLoss reg_max pred_dist1 anchor_points1
             target_scores_sum Hf Hp1 Ht1 Hs1).
  rewrite (loss_iou_as_sum bbox_iou bbox2dist DFLoss reg_max pred_dist2 anchor_points2
             target_scores_sum Hf Hp2 Ht2 Hs2).
  f_equal. unfold loss_iou_sum.
  apply Rsum_map_ext_in. intros i _. apply Rsum_map_ext_in. intros j _.
  destruct (nth j (nth i fg_mask []) false) eqn:E; [|reflexivity].
  destruct (Hagree i j E) as (-> & -> & ->). reflexivity.
Qed.

Lemma BboxLoss_forward_frame_witness :
  fst (fst (BboxLoss_forward (fun p t => nth 0 p 0 - nth 0 t 0) (fun _ box _ => box)
              (fun _ _ _ => 1) 1 [[[]; []]]
              [[[1; 0; 2; 2]; [0; 0; 1; 1]]] [[1; 1]; [1; 1]]
              [[[0; 0; 2; 2]; [1; 1; 3; 3]]] [[[1 / 2]; [0]]] 1 [[true; false]]))
  = fst (fst (BboxLoss_forward (fun p t => nth 0 p 0 - nth 0 t 0) (fun _ box _ => box)
                (fun _ _ _ => 1) 1 [[[7]; [8]]]
                [[[1; 0; 2; 2]; [5; 5; 6; 6]]] [[0; 0]; [0; 0]]
                [[[0; 0; 2; 2]; [9; 9; 9; 9]]] [[[1 / 2]; [1]]] 1 [[true; false]])).
Proof.
  apply (@BboxLoss_forward_frame _ _ _ 1 1 2);
    [split; [reflexivity|repeat constructor] .. |].
  intros i j E.
  destruct i as [|[|i]]; destruct j as [|[|[|j]]]; simpl in E; try discriminate.
  repeat split.
Defined.

(** ** [__call__] after the assignment: what is returned *)

Lemma shaped_joint_quality (bbox_iou : list R -> list R -> R) (b a : nat)
      (pred_bboxes target_bboxes target_scores : list (list (list R)))
      (stride_tensor : list R) :
  shaped b a pred_bboxes -> shaped b a target_bboxes -> shaped b a target_scores ->
  length stride_tensor = a ->
  shaped b a (joint_quality
                (map2 (map2 bbox_iou) pred_bboxes (unscale_boxes stride_tensor target_bboxes))
                target_scores).
Proof.
  intros Hp Ht Hs Hstride. unfold joint_quality, unscale_boxes.
  apply shaped_map2; [|assumption].
  apply shaped_map2; [assumption|]. now apply shaped_rows_map2.
Qed.

(** X5.  With at least one foreground position, (b, a)-shaped assignment
    tensors, one stride per position and [embed_topk <= a], [__call__]
    returns: the breakdown is the localization loss, the classification loss,
    the distribution focal loss and [kd + rkd] over the rows picked by the
    embedding mask, each times its gain, in that order; the total is their
    sum; the foreground mask comes back as the assigner gave it.  The
    localization and focal losses are those of [BboxLoss.forward] on the
    target boxes divided by the strides, and the embedding mask is the one
    [embed_select] builds from the IoU times the target class scores. *)
Theorem call_after_assignment_breakdown
        (bbox_iou : list R -> list R -> R) (bbox2dist : list R -> list R -> R -> list R)
        (DFLoss : nat -> list R -> list R -> R)
        (kd_loss rkd_loss : list (list R) -> list (list R) -> R)
        (topk_idx : list R -> nat -> list nat)
        (hyp : gains) (reg_max b a : nat)
        (pred_scores pred_distri pred_embeds pred_bboxes : list (list (list R)))
        (anchor_points : list (list R)) (stride_tensor : list R)
        (asg : assignment) (embed_topk : nat) :
  mask_sum (fg_mask asg) <> 0%nat ->
  shaped b a pred_bboxes -> shaped b a (target_bboxes asg) ->
  shaped b a (target_scores asg) -> shaped b a (target_gt_idx asg) ->
  shaped b a (fg_mask asg) -> length stride_tensor = a -> (embed_topk <= a)%nat ->
  exists embed_mask,
    embed_select topk_idx
      (joint_quality
         (map2 (map2 bbox_iou) pred_bboxes
               (unscale_boxes stride_tensor (target_bboxes asg)))
         (target_scores asg))
      (target_gt_idx asg) embed_topk (zeros_like (fg_mask asg)) = ok embed_mask /\
    call_after_assignment bbox_iou bbox2dist DFLoss kd_loss rkd_loss topk_idx
      hyp reg_max pred_scores pred_distri pred_embeds pred_bboxes
      anchor_points stride_tensor asg embed_topk
    = ok (Rsum
            [ fst (fst (BboxLoss_forward bbox_iou bbox2dist DFLoss reg_max pred_distri
                          pred_bboxes anchor_points
                          (unscale_boxes stride_tensor (target_bboxes asg))
                          (target_scores asg) (target_scores_sum_of (target_scores asg))
                          (fg_mask asg))) * box_gain hyp;
              cls_loss pred_scores (target_scores asg) * cls_gain hyp;
              snd (fst (BboxLoss_forward bbox_iou bbox2dist DFLoss reg_max pred_distri
                          pred_bboxes anchor_points
                          (unscale_boxes stride_tensor (target_bboxes asg))
                          (target_scores asg) (target_scores_sum_of (target_scores asg))
                          (fg_mask asg))) * dfl_gain hyp;
              (kd_loss (mask_select embed_mask pred_embeds)
                       (mask_select embed_mask (target_embeds asg))
               + rkd_loss (mask_select embed_mask (target_embeds asg))
                          (mask_select embed_mask pred_embeds)) * embed_gain hyp ],
          [ fst (fst (BboxLoss_forward bbox_iou bbox2dist DFLoss reg_max pred_distri
                        pred_bboxes anchor_points
                        (unscale_boxes stride_tensor (target_bboxes asg))
                        (target_scores asg) (target_scores_sum_of (target_scores asg))
                        (fg_mask asg))) * box_gain hyp;
            cls_loss pred_scores (target_scores asg) * cls_gain hyp;
            snd (fst (BboxLoss_forward bbox_iou bbox2dist DFLoss reg_max pred_distri
                        pred_bboxes anchor_points
                        (unscale_boxes stride_tensor (target_bboxes asg))
                        (target_scores asg) (target_scores_sum_of (target_scores asg))
                        (fg_mask asg))) * dfl_gain hyp;
            (kd_loss (mask_select embed_mask pred_embeds)
                     (mask_select embed_mask (target_embeds asg))
             + rkd_loss (mask_select embed_mask (target_embeds asg))
                        (mask_select embed_mask pred_embeds)) * embed_gain hyp ],
          fg_mask asg).
Proof.
  intros Hfg Hp Ht Hs Hi Hf Hstride Hk.
  pose proof (@shaped_joint_quality bbox_iou b a _ _ _ _ Hp Ht Hs Hstride) as Hjq.
  destruct (embed_select_zeros topk_idx Hjq Hi Hf Hk) as (embed_mask & Hrun & _ & _).
  exists embed_mask. split; [exact Hrun|].
  unfold call_after_assignment.
  destruct (Nat.eqb_spec (mask_sum (fg_mask asg)) 0) as [Hz|_]; [contradiction|].
  unfold BboxLoss_forward. cbn [bind load_local ok fst snd].
  unfold joint_quality, unscale_boxes in Hrun. rewrite Hrun. reflexivity.
Qed.

Lemma fg_assignment_shapes :
  mask_sum (fg_mask fg_assignment) <> 0%nat /\
  shaped 1 2 [[[0; 0; 2; 2]; [0; 0; 1; 1]]] /\
  shaped 1 2 (target_bboxes fg_assignment) /\
  shaped 1 2 (target_scores fg_assignment) /\
  shaped 1 2 (target_gt_idx fg_assignment) /\
  shaped 1 2 (fg_mask fg_assignment) /\
  length [32; 32] = 2%nat /\ (2 <= 2)%nat.
Proof.
  split; [discriminate|].
  repeat (split; [split; [reflexivity|repeat constructor]|]).
  split; [reflexivity|lia].
Qed.

Lemma call_after_assignment_breakdown_witness :
  exists total loss,
    call_after_assignment quarter_iou keep_box unit_DFLoss zero_distance zero_distance
      (topk_stable (T := R)) default_gains 2 [[[0]; [0]]]
      flat_logits
      [[[1; 0]; [0; 1]]] [[[0; 0; 2; 2]; [0; 0; 1; 1]]]
      [[1 / 2; 1 / 2]; [3 / 2; 1 / 2]] [32; 32] fg_assignment 2
    = ok (total, loss, [[true; false]]) /\ length loss = 4%nat /\ total = Rsum loss.
Proof.
  destruct fg_assignment_shapes as (Hfg & Hp & Ht & Hs & Hi & Hf & Hstride & Hk).
  destruct (@call_after_assignment_breakdown quarter_iou keep_box unit_DFLoss
              zero_distance zero_distance (topk_stable (T := R)) default_gains 2 1 2
              [[[0]; [0]]] flat_logits
              [[[1; 0]; [0; 1]]] [[[0; 0; 2; 2]; [0; 0; 1; 1]]]
              [[1 / 2; 1 / 2]; [3 / 2; 1 / 2]] [32; 32] fg_assignment 2
              Hfg Hp Ht Hs Hi Hf Hstride Hk) as (embed_mask & _ & Hcall).
  eexists _, _. split; [exact Hcall|]. split; reflexivity.
Defined.

Lemma BboxLoss_forward_signs
      (bbox_iou : list R -> list R -> R) (bbox2dist : list R -> list R -> R -> list R)
      (DFLoss : nat -> list R -> list R -> R) (reg_max : nat)
      (pred_dist pred_bboxes : list (list (list R))) (anchor_points : list (list R))
      (target_bboxes target_scores : list (list (list R)))
      (target_scores_sum : R) (fg_mask : list (list bool)) :
  (forall p t, bbox_iou p t <= 1) ->
  (forall r d t, 0 <= DFLoss r d t) ->
  Forall (Forall (Forall (fun y => 0 <= y))) target_scores ->
  0 < target_scores_sum ->
  0 <= fst (fst (BboxLoss_forward bbox_iou bbox2dist DFLoss reg_max pred_dist pred_bboxes
                   anchor_points target_bboxes target_scores target_scores_sum fg_mask)) /\
  0 <= snd (fst (BboxLoss_forward bbox_iou bbox2dist DFLoss reg_max pred_dist pred_bboxes
                   anchor_points target_bboxes target_scores target_scores_sum fg_mask)).
Proof.
  intros Hiou Hdfl Ht Hsum. unfold BboxLoss_forward. cbn [fst snd].
  pose proof (weight_nonneg fg_mask Ht) as Hw. rewrite Forall_forall in Hw.
  split.
  - apply Rdiv_nonneg; [|assumption]. apply Rsum_nonneg, Forall_map2.
    intros i w Hi Hwi. apply in_mask_select, in_concat_map2_map2 in Hi.
    destruct Hi as (p & t & ->). specialize (Hiou p t). specialize (Hw w Hwi). nra.
  - destruct (1 <? reg_max)%nat; [|lra].
    apply Rdiv_nonneg; [|assumption]. apply Rsum_nonneg, Forall_map2.
    intros d w Hd Hwi. specialize (Hw w Hwi).
    assert (Hd0 : 0 <= d).
    { revert Hd. generalize (mask_select fg_mask pred_dist).
      intros l1 Hd. unfold map2 in Hd. apply in_map_iff in Hd.
      destruct Hd as ([x y] & <- & _). apply Hdfl. }
    nra.
Qed.

Lemma unit_scores_nonneg (t : list (list (list R))) :
  Forall (Forall (Forall (fun y => 0 <= y <= 1))) t ->
  Forall (Forall (Forall (fun y => 0 <= y))) t.
Proof.
  intros Ht. eapply Forall_impl; [|exact Ht]. intros img Himg.
  eapply Forall_impl; [|exact Himg]. intros row Hrow.
  eapply Forall_impl; [|exact Hrow]. intros y Hy. lra.
Qed.

Lemma cls_loss_sign (pred_scores target_scores : list (list (list R))) :
  Forall (Forall (Forall (fun y => 0 <= y <= 1))) target_scores ->
  0 <= cls_loss pred_scores target_scores.
Proof.
  intros Ht. unfold cls_loss. apply Rdiv_nonneg.
  - apply Rsum3_nonneg. apply Forall_map2. intros p t _ Hti.
    rewrite Forall_forall in Ht. specialize (Ht t Hti).
    apply Forall_map2. intros pr tr _ Htr.
    rewrite Forall_forall in Ht. specialize (Ht tr Htr).
    apply Forall_map2. intros x y _ Hy.
    rewrite Forall_forall in Ht. apply bce_with_logits_nonneg. now apply Ht.
  - pose proof (target_scores_sum_pos target_scores). lra.
Qed.

(** X6.  Under the conditions in which [__call__] returns (a foreground
    position, (b, a)-shaped assignment tensors, [embed_topk <= a]), and with
    non-negative gains, target class scores in [0, 1], an IoU primitive that
    never exceeds 1 and focal and embedding primitives that are never
    negative, each of the four terms of the returned breakdown is
    non-negative and so is the total. *)
Theorem call_after_assignment_nonneg
        (bbox_iou : list R -> list R -> R) (bbox2dist : list R -> list R -> R -> list R)
        (DFLoss : nat -> list R -> list R -> R)
        (kd_loss rkd_loss : list (list R) -> list (list R) -> R)
        (topk_idx : list R -> nat -> list nat)
        (hyp : gains) (reg_max b a : nat)
        (pred_scores pred_distri pred_embeds pred_bboxes : list (list (list R)))
        (anchor_points : list (list R)) (stride_tensor : list R)
        (asg : assignment) (embed_topk : nat) :
  (0 <= box_gain hyp /\ 0 <= cls_gain hyp /\ 0 <= dfl_gain hyp /\ 0 <= embed_gain hyp) ->
  (forall p t, bbox_iou p t <= 1) ->
  (forall r d t, 0 <= DFLoss r d t) ->
  (forall p t, 0 <= kd_loss p t) -> (forall t p, 0 <= rkd_loss t p) ->
  Forall (Forall (Forall (fun y => 0 <= y <= 1))) (target_scores asg) ->
  mask_sum (fg_mask asg) <> 0%nat ->
  shaped b a pred_bboxes -> shaped b a (target_bboxes asg) ->
  shaped b a (target_scores asg) -> shaped b a (target_gt_idx asg) ->
  shaped b a (fg_mask asg) -> length stride_tensor = a -> (embed_topk <= a)%nat ->
  exists total box cls dfl embed,
    call_after_assignment bbox_iou bbox2dist DFLoss kd_loss rkd_loss topk_idx
      hyp reg_max pred_scores pred_distri pred_embeds pred_bboxes
      anchor_points stride_tensor asg embed_topk
    = ok (total, [box; cls; dfl; embed], fg_mask asg) /\
    0 <= box /\ 0 <= cls /\ 0 <= dfl /\ 0 <= embed /\
    total = box + cls + dfl + embed /\ 0 <= total.
Proof.
  intros (Hgb & Hgc & Hgd & Hge) Hiou Hdfl Hkd Hrkd Hunit Hfg Hp Ht Hs Hi Hf Hstride Hk.
  pose proof (@shaped_joint_quality bbox_iou b a _ _ _ _ Hp Ht Hs Hstride) as Hjq.
  destruct (embed_select_zeros topk_idx Hjq Hi Hf Hk) as (embed_mask & Hrun & _ & _).
  pose proof (target_scores_sum_pos (target_scores asg)) as Hsum.
  destruct (@BboxLoss_forward_signs bbox_iou bbox2dist DFLoss reg_max pred_distri
              pred_bboxes anchor_points (unscale_boxes stride_tensor (target_bboxes asg))
              (target_scores asg) (target_scores_sum_of (target_scores asg)) (fg_mask asg)
              Hiou Hdfl (unit_scores_nonneg Hunit) ltac:(lra)) as [Hbox Hdflv].
  pose proof (cls_loss_sign pred_scores Hunit) as Hcls.
  unfold BboxLoss_forward in Hbox, Hdflv. cbn [fst snd] in Hbox, Hdflv.
  unfold call_after_assignment.
  destruct (Nat.eqb_spec (mask_sum (fg_mask asg)) 0) as [Hz|_]; [contradiction|].
  unfold BboxLoss_forward. cbn [bind load_local ok fst snd].
  unfold joint_quality, unscale_boxes in Hrun. rewrite Hrun. cbn [bind ok].
  unfold unscale_boxes in Hbox, Hdflv.
  eexists _, _, _, _, _. split; [reflexivity|].
  pose proof (Hkd (mask_select embed_mask pred_embeds)
                  (mask_select embed_mask (target_embeds asg))) as Hk1.
  pose proof (Hrkd (mask_select embed_mask (target_embeds asg))
                   (mask_select embed_mask pred_embeds)) as Hk2.
  assert (H0 : forall x g, 0 <= x -> 0 <= g -> 0 <= x * g)
    by (intros; now apply Rmult_le_pos).
  pose proof (H0 _ _ Hbox Hgb) as Hb0.
  pose proof (H0 _ _ Hcls Hgc) as Hc0.
  pose proof (H0 _ _ Hdflv Hgd) as Hd0.
  pose proof (H0 _ _ (Rplus_le_le_0_compat _ _ Hk1 Hk2) Hge) as He0.
  repeat (split; [assumption|]).
  split.
  - unfold Rsum. cbn [fold_right]. ring.
  - apply Rsum_nonneg. repeat (apply Forall_cons; [assumption|]). apply Forall_nil.
Qed.

Lemma call_after_assignment_nonneg_witness :
  exists total box cls dfl embed,
    call_after_assignment quarter_iou keep_box unit_DFLoss zero_distance zero_distance
      (topk_stable (T := R)) default_gains 2 [[[0]; [0]]]
      flat_logits
      [[[1; 0]; [0; 1]]] [[[0; 0; 2; 2]; [0; 0; 1; 1]]]
      [[1 / 2; 1 / 2]; [3 / 2; 1 / 2]] [32; 32] fg_assignment 2
    = ok (total, [box; cls; dfl; embed], [[true; false]]) /\
    0 <= box /\ 0 <= cls /\ 0 <= dfl /\ 0 <= embed /\
    total = box + cls + dfl + embed /\ 0 <= total.
Proof.
  destruct fg_assignment_shapes as (Hfg & Hp & Ht & Hs & Hi & Hf & Hstride & Hk).
  apply (@call_after_assignment_nonneg quarter_iou keep_box unit_DFLoss
           zero_distance zero_distance (topk_stable (T := R)) default_gains 2 1 2
           [[[0]; [0]]] flat_logits
           [[[1; 0]; [0; 1]]] [[[0; 0; 2; 2]; [0; 0; 1; 1]]]
           [[1 / 2; 1 / 2]; [3 / 2; 1 / 2]] [32; 32] fg_assignment 2);
    try assumption.
  - unfold default_gains. simpl. lra.
  - intros. unfold quarter_iou. lra.
  - intros. unfold unit_DFLoss. lra.
  - intros. unfold zero_distance. lra.
  - intros. unfold zero_distance. lra.
  - unfold fg_assignment. simpl. repeat constructor; lra.
Defined.

(** ** EmbeddingSelector: order of the visits, size of the selection, errors *)

Lemma bool_list_ext (l1 l2 : list bool) :
  length l1 = length l2 ->
  (forall p, nth p l1 false = true <-> nth p l2 false = true) ->
  l1 = l2.
Proof.
  intros Hl Hnth. apply (nth_ext _ _ false false Hl). intros p _.
  specialize (Hnth p).
  destruct (nth p l1 false), (nth p l2 false); intuition congruence.
Qed.

(** X7.  The mask that the inner loop of the selection leaves depends on
    which index values are visited, not on their order or on a value being
    visited twice: two lists of instance ids with the same members give the
    same result (the same mask, or the same error). *)
Theorem select_instances_order_independent {T : Type} `{Score T}
        (tk : list T -> nat -> list nat) (scores : list T) (row : list Z) (k : nat)
        (ids ids' : list Z) (mask : list bool) :
  length scores = length row ->
  (forall id, In id ids <-> In id ids') ->
  select_instances tk scores row k ids mask = select_instances tk scores row k ids' mask.
Proof.
  intros Hl Hsame.
  destruct (Nat.leb_spec k (length row)) as [Hk|Hk].
  - destruct (@select_instances_spec T _ tk scores row k ids Hl Hk mask)
      as (m1 & -> & Hl1 & Hn1).
    destruct (@select_instances_spec T _ tk scores row k ids' Hl Hk mask)
      as (m2 & -> & Hl2 & Hn2).
    f_equal. apply bool_list_ext; [congruence|].
    intros p. rewrite Hn1, Hn2.
    split; (intros [?|[Hp (id & Hid & Hin)]]; [now left|right]);
      (split; [assumption|]); exists id; (split; [|assumption]); now apply Hsame.
  - assert (Hlen : forall id,
              length (masked_scores scores (instance_mask row id)) = length row).
    { intros id. unfold masked_scores, instance_mask.
      rewrite length_map2, length_map, Hl. apply Nat.min_id. }
    destruct ids as [|i ids], ids' as [|i' ids'].
    + reflexivity.
    + exfalso. apply (proj2 (Hsame i')). now left.
    + exfalso. apply (proj1 (Hsame i)). now left.
    + simpl. unfold torch_topk. rewrite !Hlen.
      destruct (Nat.leb_spec k (length row)) as [?|_]; [lia|]. reflexivity.
Qed.

Lemma select_instances_order_independent_witness :
  select_instances topk_stable [3; 5; 4; 6]%Q [1; 1; 1; 2]%Z 2 [1; 2]%Z
                   [false; false; false; false]
  = select_instances topk_stable [3; 5; 4; 6]%Q [1; 1; 1; 2]%Z 2 [2; 1; 2]%Z
                     [false; false; false; false].
Proof.
  apply (@select_instances_order_independent Q _ topk_stable); [reflexivity|].
  intros id. simpl. tauto.
Defined.

(** X8.  With more instances requested than an image has positions, the
    selection raises the error of [torch.topk] as soon as the first image
    has a position: [embed_topk] is not clipped to the number of
    positions. *)
Theorem embed_select_topk_out_of_range {T : Type} `{Score T}
        (tk : list T -> nat -> list nat) (b a k : nat)
        (scores : list (list T)) (idx : list (list Z)) (fg : list (list bool)) :
  shaped b a scores -> shaped b a idx -> shaped b a fg ->
  (1 <= b)%nat -> (1 <= a)%nat -> (a < k)%nat ->
  embed_select tk scores idx k (zeros_like fg)
  = raise (RuntimeError "selected index k out of range").
Proof.
  intros [Hsl Hs] [Hil Hi] [Hfl Hf] Hb Ha Hk.
  destruct idx as [|row rows]; [simpl in Hil; lia|].
  destruct scores as [|sc scs]; [simpl in Hsl; lia|].
  destruct fg as [|m ms]; [simpl in Hfl; lia|].
  inversion Hi as [|? ? Hrow _]; subst.
  inversion Hs as [|? ? Hsc _]; subst.
  destruct row as [|g row]; [simpl in Ha; lia|].
  assert (Hne : exists id ids, unique (g :: row) = id :: ids).
  { destruct (unique (g :: row)) as [|id ids] eqn:E.
    - exfalso. assert (Hin : In g (unique (g :: row))) by (apply in_unique; now left).
      rewrite E in Hin. destruct Hin.
    - now exists id, ids. }
  destruct Hne as (id & ids & Hu).
  assert (Hlen : length (masked_scores sc (instance_mask (g :: row) id))
                 = length (g :: row)).
  { unfold masked_scores, instance_mask.
    rewrite length_map2, length_map, Hsc. apply Nat.min_id. }
  cbn [embed_select zeros_like map]. rewrite Hu.
  cbn [select_instances]. unfold torch_topk.
  rewrite Hlen. destruct (Nat.leb_spec k (length (g :: row))) as [?|_]; [lia|].
  reflexivity.
Qed.

Lemma embed_select_topk_out_of_range_witness :
  embed_select topk_stable ex_scores ex_idx 5 (zeros_like ex_fg)
  = raise (RuntimeError "selected index k out of range").
Proof.
  destruct ex_shapes as (Hs & Hi & Hf).
  apply (@embed_select_topk_out_of_range Q _ topk_stable 1 4 5); try assumption; lia.
Defined.

Lemma length_filter_map {A B} (f : B -> bool) (h : A -> B) (l : list A) :
  length (filter f (map h l)) = length (filter (fun x => f (h x)) l).
Proof.
  induction l as [|x l IH]; simpl; [reflexivity|].
  destruct (f (h x)); simpl; rewrite IH; reflexivity.
Qed.

Lemma count_true_as_filter (m : list bool) :
  count_true m = length (filter (fun i => nth i m false) (seq 0 (length m))).
Proof.
  unfold count_true. induction m as [|b0 m IH]; [reflexivity|].
  change (seq 0 (length (b0 :: m))) with (0%nat :: seq 1 (length m)).
  rewrite <- seq_shift.
  assert (Hrest :
    length (filter (fun i => nth i (b0 :: m) false) (map S (seq 0 (length m))))
    = length (filter (fun b => b) m)).
  { rewrite length_filter_map. rewrite IH. reflexivity. }
  destruct b0.
  - change (filter (fun b : bool => b) (true :: m))
      with (true :: filter (fun b : bool => b) m).
    change (filter (fun i => nth i (true :: m) false)
                   (0%nat :: map S (seq 0 (length m))))
      with (0%nat :: filter (fun i => nth i (true :: m) false)
                            (map S (seq 0 (length m)))).
    cbn [length]. now rewrite Hrest.
  - change (filter (fun b : bool => b) (false :: m))
      with (filter (fun b : bool => b) m).
    change (filter (fun i => nth i (false :: m) false)
                   (0%nat :: map S (seq 0 (length m))))
      with (filter (fun i => nth i (false :: m) false) (map S (seq 0 (length m)))).
    now rewrite Hrest.
Qed.

Lemma length_flat_map_const {A B} (f : A -> list B) (k : nat) (l : list A) :
  (forall x, In x l -> length (f x) = k) -> length (flat_map f l) = (k * length l)%nat.
Proof.
  induction l as [|x l IH]; intros Hf; simpl; [lia|].
  rewrite length_app.
  rewrite (Hf x) by now left.
  rewrite IH by (intros y Hy; apply Hf; now right). lia.
Qed.

(** X9.  For every image with at least one position, the selection marks at
    least [embed_topk] positions and at most [embed_topk] times the number
    of distinct values in the image's [target_gt_idx] row; in particular an
    image whose positions all carry one value (for instance an image
    without any foreground) still has exactly [embed_topk] positions
    marked. *)
Theorem embed_select_marked_count {T : Type} `{ScoreLaws T}
        (tk : list T -> nat -> list nat) (b a k : nat)
        (scores : list (list T)) (idx : list (list Z)) (fg : list (list bool)) :
  topk_ok tk ->
  shaped b a scores -> shaped b a idx -> shaped b a fg ->
  (1 <= a)%nat -> (k <= a)%nat ->
  exists mask,
    embed_select tk scores idx k (zeros_like fg) = ok mask /\
    forall bi, (bi < b)%nat ->
      (k <= count_true (nth bi mask []))%nat /\
      (count_true (nth bi mask []) <= k * length (unique (nth bi idx [])))%nat.
Proof.
  intros Hok Hs Hi Hf Ha Hk.
  destruct (embed_select_zeros tk Hs Hi Hf Hk) as (mask & Hrun & Hm & Hnth).
  exists mask. split; [exact Hrun|].
  intros bi Hbi. specialize (Hnth bi Hbi).
  pose proof (shaped_nth Hs Hbi) as Hls.
  pose proof (shaped_nth Hi Hbi) as Hli.
  pose proof (shaped_nth Hm Hbi) as Hlm.
  set (row := nth bi idx []) in *. set (sc := nth bi scores []) in *.
  set (m := nth bi mask []) in *.
  assert (Hl : length sc = length row) by congruence.
  assert (Hsel : forall id,
            length (tk (masked_scores sc (instance_mask row id)) k) = k /\
            NoDup (tk (masked_scores sc (instance_mask row id)) k) /\
            forall p, In p (tk (masked_scores sc (instance_mask row id)) k) -> (p < a)%nat).
  { intros id.
    assert (Hkv : (k <= length (masked_scores sc (instance_mask row id)))%nat).
    { rewrite length_masked by assumption. lia. }
    destruct (Hok _ _ Hkv) as (Hlen & Hnd & Hrange & _).
    repeat split; try assumption.
    intros p Hp. apply Hrange in Hp. rewrite length_masked in Hp by assumption. lia. }
  rewrite count_true_as_filter, Hlm. split.
  - destruct row as [|g row'] eqn:Erow; [simpl in Hli; lia|].
    destruct (Hsel g) as (Hlen & Hnd & Hrange).
    rewrite <- Hlen at 1. apply NoDup_incl_length; [assumption|].
    intros p Hp. apply filter_In. split.
    + apply in_seq. specialize (Hrange p Hp). lia.
    + apply Hnth. split; [now apply Hrange|].
      exists g. split; [now left|assumption].
  - rewrite <- (@length_flat_map_const _ _
                  (fun id => tk (masked_scores sc (instance_mask row id)) k) k (unique row))
      by (intros id _; apply Hsel).
    apply NoDup_incl_length; [apply NoDup_filter, seq_NoDup|].
    intros p Hp. apply filter_In in Hp. destruct Hp as [_ Hp].
    apply Hnth in Hp. destruct Hp as (_ & id & Hid & Hin).
    apply in_flat_map. exists id. split; [now apply in_unique|assumption].
Qed.

Lemma embed_select_marked_count_witness :
  exists mask,
    embed_select topk_stable bg_scores bg_idx 3 (zeros_like bg_fg) = ok mask /\
    (3 <= count_true (nth 0 mask []))%nat /\
    (count_true (nth 0 mask []) <= 3 * 2)%nat.
Proof.
  destruct bg_shapes as (Hs & Hi & Hf).
  destruct (@embed_select_marked_count Q _ _ topk_stable 1 5 3 bg_scores bg_idx bg_fg
              topk_stable_ok Hs Hi Hf ltac:(lia) ltac:(lia)) as (mask & Hrun & Hcount).
  exists mask. split; [exact Hrun|]. exact (Hcount 0%nat ltac:(lia)).
Defined.

(** ** TargetPreprocessor on a batch with annotations *)

Lemma Reqb_true (x y : R) : Reqb x y = true <-> x = y.
Proof.
  unfold Reqb. destruct (Req_dec_T x y); split; intros; auto; discriminate.
Qed.

Lemma le_fold_max (x : nat) (l : list nat) :
  In x l -> (x <= fold_right Nat.max 0%nat l)%nat.
Proof.
  induction l as [|y l IH]; simpl; [intros []|].
  intros [->|Hin]; [lia|]. specialize (IH Hin). lia.
Qed.

(** No image has more rows than [counts.max()]: the slice assignment
    [out[j, :n] = targets[matches, 1:]] always fits. *)
Lemma matches_le_counts_max (rows : list (list R)) (j : nat) :
  (length (matches rows j) <= counts_max rows)%nat.
Proof.
  destruct (matches rows j) as [|r rest] eqn:E; [simpl; lia|].
  rewrite <- E.
  assert (Hr : In r (matches rows j)) by (rewrite E; now left).
  unfold matches in Hr. apply filter_In in Hr. destruct Hr as [Hin Hidx].
  apply Reqb_true in Hidx.
  unfold counts_max. apply le_fold_max. apply in_map_iff.
  exists r. split; [|assumption].
  unfold matches. rewrite Hidx. reflexivity.
Qed.

Lemma length_fill_image (n_max w : nat) (rows : list (list R)) :
  (length rows <= n_max)%nat -> length (fill_image n_max w rows) = n_max.
Proof.
  intros Hle. unfold fill_image. rewrite length_app, length_map, repeat_length. lia.
Qed.

Lemma nth_fill_batch (batch_size n_max w : nat) (rows : list (list R)) (j : nat) :
  (j < batch_size)%nat ->
  nth j (fill_batch batch_size n_max w rows) [] = fill_image n_max w (matches rows j).
Proof.
  intros Hj. unfold fill_batch.
  rewrite (nth_indep _ [] ((fun j => fill_image n_max w (matches rows j)) 0%nat))
    by (rewrite length_map, length_seq; lia).
  rewrite (map_nth (fun j => fill_image n_max w (matches rows j))), seq_nth by lia.
  reflexivity.
Qed.

Lemma fill_image_widths (n_max w : nat) (rows : list (list R)) :
  Forall (fun r => length r = S w) rows ->
  Forall (fun r => length r = w) (fill_image n_max w rows).
Proof.
  intros Hrows. unfold fill_image. apply Forall_app. split.
  - apply Forall_map. eapply Forall_impl; [|exact Hrows].
    intros [|x r] Hr; simpl in *; lia.
  - apply Forall_forall. intros r Hr. apply repeat_spec in Hr. subst r.
    apply repeat_length.
Qed.


(** X10.  For a target tensor with at least one row, rows of one width
    [ne >= 1], [preprocess_embedding] returns a dense
    (batch_size, counts.max(), ne - 1) tensor, and the block of image [j] is
    the rows tagged with image index [j], in their order and without the
    index column, followed by all-zero rows up to [counts.max()]; an image
    without a row gets an all-zero block and a row whose index is no image
    of the batch appears nowhere. *)
Theorem preprocess_embedding_padded (targets : tensor2) (batch_size : nat) :
  t2_rows targets <> [] -> (1 <= t2_cols targets)%nat ->
  Forall (fun r => length r = t2_cols targets) (t2_rows targets) ->
  exists data,
    preprocess_embedding targets batch_size
    = ok (Tensor3 (batch_size, counts_max (t2_rows targets), t2_cols targets - 1)%nat data) /\
    shaped3 batch_size (counts_max (t2_rows targets)) (t2_cols targets - 1) data /\
    forall j, (j < batch_size)%nat ->
      nth j data []
      = map (@tl R) (matches (t2_rows targets) j)
        ++ repeat (repeat 0 (t2_cols targets - 1))
                  (counts_max (t2_rows targets) - length (matches (t2_rows targets) j)).
Proof.
  intros Hne Hcols Hwidth.
  destruct targets as [ne rows]. simpl in *.
  exists (fill_batch batch_size (counts_max rows) (ne - 1) rows).
  split; [|split].
  - unfold preprocess_embedding, torch_zeros. simpl.
    destruct rows as [|r rows]; [contradiction|]. cbn [length Nat.eqb].
    destruct (Z.ltb_spec (Z.of_nat ne - 1) 0) as [Hneg|_]; [lia|].
    replace (Z.to_nat (Z.of_nat ne - 1)) with (ne - 1)%nat by lia.
    reflexivity.
  - split.
    + unfold fill_batch. now rewrite length_map, length_seq.
    + apply Forall_forall. intros img Himg. unfold fill_batch in Himg.
      apply in_map_iff in Himg. destruct Himg as (j & <- & _). split.
      * apply length_fill_image, matches_le_counts_max.
      * apply fill_image_widths. unfold matches.
        apply Forall_forall. intros r Hr. apply filter_In in Hr. destruct Hr as [Hr _].
        rewrite Forall_forall in Hwidth. rewrite (Hwidth r Hr). lia.
  - intros j Hj. now rewrite nth_fill_batch.
Qed.

Lemma preprocess_embedding_padded_witness :
  exists data,
    preprocess_embedding (Tensor2 3 [[1; 5; 6]; [1; 7; 8]; [3; 9; 9]]) 2
    = ok (Tensor3 (2%nat, counts_max [[1; 5; 6]; [1; 7; 8]; [3; 9; 9]], 2%nat) data) /\
    shaped3 2 (counts_max [[1; 5; 6]; [1; 7; 8]; [3; 9; 9]]) 2 data.
Proof.
  destruct (@preprocess_embedding_padded (Tensor2 3 [[1; 5; 6]; [1; 7; 8]; [3; 9; 9]]) 2)
    as (data & Hrun & Hshape & _).
  - discriminate.
  - simpl. lia.
  - repeat constructor.
  - exists data. split; assumption.
Defined.




(** ** BoxCodec: range of the decoded distances *)

Lemma Rsum_map_div {A} (f : A -> R) (c : R) (l : list A) :
  Rsum (map (fun x => f x / c) l) = Rsum (map f l) / c.
Proof.
  induction l as [|x l IH]; cbn [map].
  - unfold Rsum, Rdiv. simpl. now rewrite Rmult_0_l.
  - rewrite !Rsum_cons, IH. unfold Rdiv. ring.
Qed.

Lemma Rsum_exp_pos (v : list R) : v <> [] -> 0 < Rsum (map exp v).
Proof.
  destruct v as [|x v]; [contradiction|]. intros _. cbn [map]. rewrite Rsum_cons.
  pose proof (exp_pos x).
  assert (0 <= Rsum (map exp v)).
  { apply Rsum_nonneg, Forall_map, Forall_forall. intros y _. left. apply exp_pos. }
  lra.
Qed.

Lemma Rsum_softmax (v : list R) : v <> [] -> Rsum (softmax v) = 1.
Proof.
  intros Hv. unfold softmax. rewrite Rsum_map_div.
  pose proof (Rsum_exp_pos Hv). field. lra.
Qed.

Lemma softmax_nonneg (v : list R) : Forall (fun p => 0 <= p) (softmax v).
Proof.
  unfold softmax. apply Forall_map, Forall_forall. intros x Hx.
  assert (Hv : v <> []) by (intros ->; destruct Hx).
  apply Rdiv_nonneg; [left; apply exp_pos|now apply Rsum_exp_pos].
Qed.

Lemma matmul_bounds (c : R) (p : list R) :
  0 <= c -> Forall (fun x => 0 <= x) p ->
  forall w, Forall (fun x => 0 <= x <= c) w ->
    0 <= matmul p w <= c * Rsum p.
Proof.
  intros Hc Hp. unfold matmul.
  induction Hp as [|x p Hx Hp IH]; intros w Hw.
  - unfold map2, Rsum. simpl. lra.
  - destruct w as [|y w].
    + change (map2 Rmult (x :: p) []) with (@nil R). rewrite Rsum_cons.
      pose proof (Rsum_nonneg Hp) as Hs.
      change (Rsum []) with 0. nra.
    + inversion Hw as [|? ? Hy Hw']; subst.
      rewrite map2_cons, !Rsum_cons. specialize (IH w Hw'). nra.
Qed.

Lemma proj_bounds (n : nat) :
  Forall (fun x => 0 <= x <= INR (n - 1)) (proj n).
Proof.
  unfold proj. apply Forall_map, Forall_forall. intros i Hi. apply in_seq in Hi.
  split; [apply pos_INR|apply le_INR; lia].
Qed.











(** X12.  With [reg_max > 1] and a row of [4 * reg_max] logits, the four
    distances that [bbox_decode] hands to [dist2bbox] all lie between 0 and
    [reg_max - 1], whatever the logits are. *)
Theorem bbox_decode_row_distances_bounded (dist2bbox : list R -> list R -> list R)
        (reg_max : nat) (anchor_point pred_dist : list R) :
  (1 < reg_max)%nat -> length pred_dist = (4 * reg_max)%nat ->
  exists distances,
    bbox_decode_row dist2bbox reg_max anchor_point pred_dist
    = dist2bbox distances anchor_point /\
    length distances = 4%nat /\
    Forall (fun d => 0 <= d <= INR (reg_max - 1)) distances.
Proof.
  intros Hreg Hlen. unfold bbox_decode_row.
  destruct (Nat.ltb_spec 1 reg_max) as [_|?]; [|lia].
  eexists. split; [reflexivity|]. split; [reflexivity|].
  apply Forall_map, Forall_forall. intros side Hside.
  assert (Hq : (length pred_dist / 4)%nat = reg_max)
    by (rewrite Hlen, Nat.mul_comm, Nat.div_mul; lia).
  assert (Hne : side <> []).
  { unfold view4 in Hside. rewrite Hq in Hside.
    assert (Hls : length side = reg_max).
    { simpl in Hside.
      destruct Hside as [<-|[<-|[<-|[<-|[]]]]];
        rewrite length_firstn, ?length_skipn; lia. }
    intros ->. simpl in Hls. lia. }
  pose proof (@matmul_bounds (INR (reg_max - 1)) (softmax side) (pos_INR _)
                (softmax_nonneg side) (proj reg_max) (proj_bounds reg_max)) as Hb.
  rewrite (Rsum_softmax Hne) in Hb. lra.
Qed.

Lemma bbox_decode_row_distances_bounded_witness :
  exists distances,
    bbox_decode_row (fun d pt => d ++ pt) 2 [3; 4] [0; 1; 2; 0; 1; 1; 0; 0]
    = distances ++ [3; 4] /\
    length distances = 4%nat /\
    Forall (fun d => 0 <= d <= INR (2 - 1)) distances.
Proof.
  apply (@bbox_decode_row_distances_bounded (fun d pt => d ++ pt) 2 [3; 4]
           [0; 1; 2; 0; 1; 1; 0; 0]); [lia|reflexivity].
Defined.

(** ** Embedding normalization *)

Lemma l2_norm_scale (c : R) (v : list R) :
  0 < c -> l2_norm (map (Rmult c) v) = c * l2_norm v.
Proof.
  intros Hc. unfold l2_norm.
  assert (Hsq : Rsum (map (fun x => x * x) (map (Rmult c) v))
                = (c * c) * Rsum (map (fun x => x * x) v)).
  { induction v as [|x v IH]; cbn [map].
    - unfold Rsum. simpl. ring.
    - rewrite !Rsum_cons, IH. ring. }
  rewrite Hsq, sqrt_mult; [|nra|apply Rsum_squares_nonneg].
  rewrite sqrt_square by lra. reflexivity.
Qed.

(** X13.  The normalization of the predicted embeddings removes their
    scale: a raw embedding vector with a non-zero norm and any positive
    multiple of it are normalized to the same row, so everything after line
    113 (the assignment and the embedding loss) sees only the direction of a
    predicted embedding. *)
Theorem l2_normalize_scale_invariant (c : R) (v : list R) :
  0 < c -> l2_norm v <> 0 ->
  l2_normalize (map (Rmult c) v) = l2_normalize v.
Proof.
  intros Hc Hn. unfold l2_normalize. rewrite l2_norm_scale by assumption.
  rewrite map_map. apply map_ext. intros x. field. split; lra.
Qed.

Lemma l2_normalize_scale_invariant_witness :
  l2_normalize (map (Rmult 2) [3; 4]) = l2_normalize [3; 4].
Proof.
  apply l2_normalize_scale_invariant; [lra|rewrite l2_norm_3_4; lra].
Defined.

(** ** The rows handed to the embedding losses come in pairs *)

Lemma mask_select1_combine {A B} (m : list bool) (xs : list A) (ys : list B) :
  length xs = length m -> length ys = length m ->
  combine (mask_select1 m xs) (mask_select1 m ys) = mask_select1 m (combine xs ys).
Proof.
  unfold mask_select1. revert xs ys.
  induction m as [|b0 m IH]; intros [|x xs] [|y ys] Hx Hy; simpl in *;
    try discriminate; [reflexivity|].
  destruct b0; simpl; rewrite IH by lia; reflexivity.
Qed.

Lemma combine_app_same {A B} (xs : list A) :
  forall (ys : list B) (xs' : list A) (ys' : list B),
    length ys = length xs ->
    combine (xs ++ xs') (ys ++ ys') = combine xs ys ++ combine xs' ys'.
Proof.
  induction xs as [|x xs IH]; intros [|y ys] xs' ys' Hl; simpl in *;
    try discriminate; [reflexivity|].
  f_equal. apply IH. lia.
Qed.

Lemma mask_select_cons {A} (m : list bool) (M : list (list bool))
      (x : list A) (X : list (list A)) :
  mask_select (m :: M) (x :: X) = mask_select1 m x ++ mask_select M X.
Proof. reflexivity. Qed.

Lemma mask_sum_cons (m : list bool) (M : list (list bool)) :
  mask_sum (m :: M) = (count_true m + mask_sum M)%nat.
Proof. reflexivity. Qed.

Lemma length_mask_select {A} (a : nat) (M : list (list bool)) :
  forall X : list (list A),
    shaped (length M) a M -> shaped (length M) a X ->
    length (mask_select M X) = mask_sum M.
Proof.
  induction M as [|m M IH]; intros [|x X] [_ HM] [HlX HX]; simpl in *;
    try discriminate; [reflexivity|].
  inversion HM as [|? ? Hm HM']; subst.
  inversion HX as [|? ? Hx HX']; subst.
  rewrite mask_select_cons, mask_sum_cons, length_app, length_mask_select1 by congruence.
  rewrite IH by (split; [lia|assumption]). reflexivity.
Qed.

Lemma mask_select_combine {A B} (a : nat) (M : list (list bool)) :
  forall (X : list (list A)) (Y : list (list B)),
    shaped (length M) a M -> shaped (length M) a X -> shaped (length M) a Y ->
    combine (mask_select M X) (mask_select M Y)
    = mask_select M (map2 (@combine A B) X Y).
Proof.
  induction M as [|m M IH]; intros [|x X] [|y Y] [_ HM] [HlX HX] [HlY HY];
    simpl in *; try discriminate; [reflexivity|].
  inversion HM as [|? ? Hm HM']; subst.
  inversion HX as [|? ? Hx HX']; subst.
  inversion HY as [|? ? Hy HY']; subst.
  rewrite map2_cons, !mask_select_cons.
  rewrite combine_app_same by (rewrite !length_mask_select1; congruence).
  rewrite mask_select1_combine by congruence.
  rewrite IH by (split; [lia|assumption]). reflexivity.
Qed.

(** X14.  For an embedding mask, predicted embeddings and target embeddings
    over the same (b, a) positions, [kd_loss] and [rkd_loss] receive as many
    predicted rows as target rows, one per marked position, and the i-th
    predicted row and the i-th target row come from the same position. *)
Theorem embed_loss_inputs_aligned (b a : nat)
        (pred_embeds_raw target_embeds : list (list (list R)))
        (embed_mask : list (list bool)) :
  shaped b a embed_mask -> shaped b a pred_embeds_raw -> shaped b a target_embeds ->
  length (fst (embed_loss_inputs pred_embeds_raw target_embeds embed_mask))
  = mask_sum embed_mask /\
  length (snd (embed_loss_inputs pred_embeds_raw target_embeds embed_mask))
  = mask_sum embed_mask /\
  combine (fst (embed_loss_inputs pred_embeds_raw target_embeds embed_mask))
          (snd (embed_loss_inputs pred_embeds_raw target_embeds embed_mask))
  = mask_select embed_mask
      (map2 (@combine (list R) (list R)) (normalize_embeds pred_embeds_raw) target_embeds).
Proof.
  intros Hm Hp Ht. unfold embed_loss_inputs. cbn [fst snd].
  assert (Hb : length embed_mask = b) by apply Hm. subst b.
  assert (Hn : shaped (length embed_mask) a (normalize_embeds pred_embeds_raw))
    by now apply shaped_map.
  split; [now apply (length_mask_select (a := a))|].
  split; [now apply (length_mask_select (a := a))|].
  now apply (mask_select_combine (a := a)).
Qed.

Lemma embed_loss_inputs_aligned_witness :
  length (fst (embed_loss_inputs [[[3; 4]; [0; 1]]] [[[1; 0]; [0; 1]]] [[false; true]]))
  = mask_sum [[false; true]] /\
  length (snd (embed_loss_inputs [[[3; 4]; [0; 1]]] [[[1; 0]; [0; 1]]] [[false; true]]))
  = mask_sum [[false; true]].
Proof.
  destruct (@embed_loss_inputs_aligned 1 2 [[[3; 4]; [0; 1]]] [[[1; 0]; [0; 1]]]
              [[false; true]]) as (H1 & H2 & _);
    [split; [reflexivity|repeat constructor] .. |].
  split; assumption.
Defined.

(** ** From the annotations to the padded ground truth *)


Lemma cat_targets_unequal (batch : annotations) :
  length (cls batch) <> length (batch_idx batch) \/
  length (t2_rows (bboxes batch)) <> length (batch_idx batch) ->
  cat_targets batch = raise cat_sizes_error.
Proof.
  intros Hne. unfold cat_targets.
  destruct (Nat.eqb_spec (length (cls batch)) (length (batch_idx batch))) as [Hc|Hc];
    [|reflexivity].
  destruct (Nat.eqb_spec (length (t2_rows (bboxes batch))) (length (batch_idx batch)))
    as [Hb|Hb]; [|reflexivity].
  destruct Hne; contradiction.
Qed.






(** The batch with two image indices, two classes and one box: the code
    raises at line 124. *)
Example cat_targets_one_box_short :
  cat_targets (Annotations [0; 0] [2; 3] (Tensor2 4 [[1 / 2; 1 / 2; 1; 1]]) (Tensor2 2 []))
  = raise cat_sizes_error.
Proof. reflexivity. Qed.

(** ** Layout of the flattened predictions *)

Lemma nth_concat_uniform (w : nat) (d : R) (rows : list (list R)) :
  Forall (fun r => length r = w) rows ->
  forall y x, (y < length rows)%nat -> (x < w)%nat ->
    nth (y * w + x) (concat rows) d = nth x (nth y rows []) d.
Proof.
  induction 1 as [|r rows Hr Hrows IH]; intros y x Hy Hx; simpl in Hy; [lia|].
  destruct y as [|y]; cbn [concat nth].
  - rewrite app_nth1 by lia. reflexivity.
  - rewrite app_nth2 by (simpl; lia).
    replace (S y * w + x - length r)%nat with (y * w + x)%nat by (simpl; lia).
    apply IH; lia.
Qed.

Lemma length_concat_uniform (w : nat) (rows : list (list R)) :
  Forall (fun r => length r = w) rows -> length (concat rows) = (length rows * w)%nat.
Proof.
  induction 1 as [|r rows Hr Hrows IH]; [reflexivity|].
  cbn [concat length]. rewrite length_app, IH, Hr. simpl. lia.
Qed.

Lemma nth_concat_offset (d : R) (segs : list (list R)) :
  forall l q, (l < length segs)%nat -> (q < length (nth l segs []))%nat ->
    (fold_right Nat.add 0 (map (@length R) (firstn l segs)) + q < length (concat segs))%nat /\
    nth (fold_right Nat.add 0 (map (@length R) (firstn l segs)) + q)%nat (concat segs) d
    = nth q (nth l segs []) d.
Proof.
  induction segs as [|s segs IH]; intros l q Hl Hq; simpl in Hl; [lia|].
  destruct l as [|l]; cbn [firstn map fold_right concat nth] in *.
  - rewrite length_app, app_nth1 by lia. split; [lia|reflexivity].
  - destruct (IH l q ltac:(lia) Hq) as [Hlt Hnth].
    rewrite length_app, app_nth2 by lia.
    replace (length s + fold_right Nat.add 0 (map (@length R) (firstn l segs)) + q
             - length s)%nat
      with (fold_right Nat.add 0 (map (@length R) (firstn l segs)) + q)%nat by lia.
    split; [lia|exact Hnth].
Qed.

Lemma nth_transpose (img : list (list R)) (p c : nat) :
  (c < length img)%nat -> (p < length (hd [] img))%nat ->
  nth c (nth p (transpose img) []) 0 = nth p (nth c img []) 0.
Proof.
  intros Hc Hp. unfold transpose.
  rewrite (nth_map_default _ _ 0%nat) by (rewrite length_seq; lia).
  rewrite seq_nth by lia. cbn [Nat.add].
  apply (nth_map_default (fun channel => nth p channel 0)). assumption.
Qed.

Lemma hd_nth0 {A} (l : list A) (d : A) : hd d l = nth 0 l d.
Proof. destruct l; reflexivity. Qed.

Lemma fold_cat_nth (b C : nat) (rest : list (list (list (list R)))) :
  forall part, shaped b C part -> Forall (shaped b C) rest ->
    shaped b C (fold_left (map2 (map2 (@app R))) rest part) /\
    forall i c, (i < b)%nat -> (c < C)%nat ->
      nth c (nth i (fold_left (map2 (map2 (@app R))) rest part) []) []
      = nth c (nth i part []) []
        ++ concat (map (fun q => nth c (nth i q []) []) rest).
Proof.
  induction rest as [|q rest IH]; intros part Hp Hrest; cbn [fold_left map concat].
  - split; [assumption|]. intros i c _ _. now rewrite app_nil_r.
  - inversion Hrest as [|? ? Hq Hrest']; subst.
    destruct (IH (map2 (map2 (@app R)) part q)) as [Hshape Hnth];
      [now apply shaped_map2|assumption|].
    split; [assumption|]. intros i c Hi Hc. rewrite Hnth by assumption.
    rewrite (@nth_map2 _ _ _ (map2 (@app R)) part q i [] [] [])
      by (destruct Hp, Hq; lia).
    rewrite (@nth_map2 _ _ _ (@app R) _ _ c [] [] [])
      by (rewrite (shaped_nth Hp) || rewrite (shaped_nth Hq); lia).
    now rewrite app_assoc.
Qed.

Lemma cat_dim2_nth (b C : nat) (parts : list (list (list (list R)))) :
  parts <> [] -> Forall (shaped b C) parts ->
  exists t,
    cat_dim2 parts = ok t /\ shaped b C t /\
    forall i c, (i < b)%nat -> (c < C)%nat ->
      nth c (nth i t []) [] = concat (map (fun q => nth c (nth i q []) []) parts).
Proof.
  intros Hne Hall. destruct parts as [|part rest]; [contradiction|].
  inversion Hall as [|? ? Hp Hrest]; subst.
  destruct (fold_cat_nth Hp Hrest) as [Hshape Hnth].
  eexists. split; [reflexivity|]. split; [assumption|].
  intros i c Hi Hc. rewrite Hnth by assumption. reflexivity.
Qed.

Lemma view_flat_shaped (b C h w : nat) (xi : list (list (list (list R)))) :
  shaped4 b C h w xi -> shaped b C (view_flat xi).
Proof.
  intros [Hl Hall]. unfold view_flat. split; [now rewrite length_map|].
  apply Forall_map. eapply Forall_impl; [|exact Hall].
  intros img [Himg _]. now rewrite length_map.
Qed.

Lemma view_flat_nth (b C h w : nat) (xi : list (list (list (list R)))) (i c : nat) :
  shaped4 b C h w xi -> (i < b)%nat -> (c < C)%nat ->
  length (nth c (nth i (view_flat xi) []) []) = (h * w)%nat /\
  forall y x, (y < h)%nat -> (x < w)%nat ->
    nth (y * w + x) (nth c (nth i (view_flat xi) []) []) 0
    = nth x (nth y (nth c (nth i xi []) []) []) 0.
Proof.
  intros [Hl Hall] Hi Hc. unfold view_flat.
  rewrite (nth_map_default _ _ []) by lia.
  assert (Himg : shaped3 C h w (nth i xi [])).
  { rewrite Forall_forall in Hall. apply Hall, nth_In. lia. }
  destruct Himg as [HC Hch].
  rewrite (nth_map_default _ _ []) by lia.
  assert (Hrows : shaped h w (nth c (nth i xi []) [])).
  { rewrite Forall_forall in Hch. apply Hch, nth_In. lia. }
  destruct Hrows as [Hh Hw]. split.
  - rewrite (length_concat_uniform Hw). now rewrite Hh.
  - intros y x Hy Hx. apply nth_concat_uniform; [assumption|lia|assumption].
Qed.

Lemma offset_by_lengths (segs : list (list R)) :
  forall (dims : list (nat * nat)),
    length dims = length segs ->
    (forall j, (j < length segs)%nat ->
       length (nth j segs []) = (fst (nth j dims (0, 0)) * snd (nth j dims (0, 0)))%nat) ->
    forall l, fold_right Nat.add 0%nat (map (@length R) (firstn l segs))
              = level_offset dims l.
Proof.
  unfold level_offset.
  induction segs as [|s segs IH]; intros [|d dims] Hlen Hseg l; simpl in Hlen;
    try discriminate.
  - now rewrite !firstn_nil.
  - destruct l as [|l]; [reflexivity|]. cbn [firstn map fold_right].
    pose proof (Hseg 0%nat ltac:(simpl; lia)) as H0. cbn [nth] in H0.
    rewrite H0. f_equal.
    apply IH; [lia|]. intros j Hj. apply (Hseg (S j)). simpl. lia.
Qed.

(** Concatenating the flattened levels: position
    [level_offset dims l + y * w + x] of every channel holds cell (y, x) of
    that channel at level [l]. *)
Lemma cat_view_nth (b C : nat) (dims : list (nat * nat))
      (feats : list (list (list (list (list R))))) :
  feats <> [] -> length dims = length feats ->
  (forall l, (l < length feats)%nat ->
     shaped4 b C (fst (nth l dims (0, 0))%nat) (snd (nth l dims (0, 0))%nat)
             (nth l feats [])) ->
  exists t,
    cat_dim2 (map view_flat feats) = ok t /\ shaped b C t /\
    forall l i c y x,
      (l < length feats)%nat -> (i < b)%nat -> (c < C)%nat ->
      (y < fst (nth l dims (0, 0))%nat)%nat -> (x < snd (nth l dims (0, 0))%nat)%nat ->
      (level_offset dims l + (y * snd (nth l dims (0, 0))%nat + x)
       < length (nth c (nth i t []) []))%nat /\
      nth (level_offset dims l + (y * snd (nth l dims (0, 0))%nat + x))%nat
          (nth c (nth i t []) []) 0
      = nth x (nth y (nth c (nth i (nth l feats []) []) []) []) 0.
Proof.
  intros Hne Hlen Hshapes.
  destruct (@cat_dim2_nth b C (map view_flat feats)) as (t & Hrun & Hshape & Hnth).
  { destruct feats; [contradiction|discriminate]. }
  { apply Forall_map, Forall_forall. intros xi Hxi.
    destruct (In_nth _ _ [] Hxi) as (l & Hl & <-).
    eapply view_flat_shaped. now apply Hshapes. }
  exists t. split; [exact Hrun|]. split; [exact Hshape|].
  intros l i c y x Hl Hi Hc Hy Hx. rewrite Hnth by assumption.
  rewrite map_map.
  set (segs := map (fun xi => nth c (nth i (view_flat xi) []) []) feats).
  assert (Hseg : forall j, (j < length feats)%nat ->
            nth j segs [] = nth c (nth i (view_flat (nth j feats [])) []) []).
  { intros j Hj. unfold segs.
    exact (@nth_map_default _ _ (fun xi => nth c (nth i (view_flat xi) []) [])
             feats j [] [] Hj). }
  assert (Hsegs : length segs = length feats) by (unfold segs; apply length_map).
  assert (Hoff : fold_right Nat.add 0%nat (map (@length R) (firstn l segs))
                 = level_offset dims l).
  { apply offset_by_lengths; [congruence|].
    intros j Hj. rewrite Hsegs in Hj. rewrite (Hseg j Hj).
    now apply (view_flat_nth (Hshapes j Hj)). }
  destruct (view_flat_nth (Hshapes l Hl) Hi Hc) as [Hlc Hcell].
  destruct (@nth_concat_offset 0 segs l (y * snd (nth l dims (0, 0))%nat + x)%nat)
    as [Hlt Heq].
  { now rewrite Hsegs. }
  { rewrite (Hseg l Hl), Hlc. nia. }
  rewrite Hoff in Hlt, Heq. split; [exact Hlt|].
  rewrite Heq, (Hseg l Hl). now apply Hcell.
Qed.

Lemma forallb_channels (b C : nat) (t : list (list (list R))) :
  shaped b C t -> forallb (fun img => (length img =? C)%nat) t = true.
Proof.
  intros [_ Hall]. apply forallb_forall. intros img Himg.
  rewrite Forall_forall in Hall. apply Nat.eqb_eq. now apply Hall.
Qed.

Lemma nth_permute_021 (t : list (list (list R))) (i p c : nat) :
  (i < length t)%nat -> (c < length (nth i t []))%nat ->
  (p < length (nth 0 (nth i t []) []))%nat ->
  nth c (nth p (nth i (permute_021 t) []) []) 0 = nth p (nth c (nth i t []) []) 0.
Proof.
  intros Hi Hc Hp. unfold permute_021.
  rewrite (nth_map_default _ _ []) by assumption.
  apply nth_transpose; [assumption|]. now rewrite (hd_nth0 _ []).
Qed.

(** X16.  Lines 98-111 lay the predictions out position by position, the
    same way for the box logits, the class logits and the embeddings: with
    feature levels of shapes (b, 4 * reg_max + nc, h_l, w_l) and embedding
    levels of shapes (b, E, h_l, w_l), cell (y, x) of level [l] becomes
    position [level_offset l + y * w_l + x] of [pred_distri], [pred_scores]
    and [pred_embeds] alike; there the first [4 * reg_max] channels of the
    cell are its [pred_distri] row, the next [nc] channels its
    [pred_scores] row, and the [E] embedding channels its [pred_embeds]
    row. *)
Theorem flatten_layout (reg_max nc E b : nat) (dims : list (nat * nat))
        (feats pred_embeds : list (list (list (list (list R))))) :
  feats <> [] -> length dims = length feats -> length pred_embeds = length feats ->
  (forall l, (l < length feats)%nat ->
     shaped4 b (reg_max * 4 + nc) (fst (nth l dims (0, 0))%nat) (snd (nth l dims (0, 0))%nat)
             (nth l feats []) /\
     shaped4 b E (fst (nth l dims (0, 0))%nat) (snd (nth l dims (0, 0))%nat)
             (nth l pred_embeds [])) ->
  exists pred_distri pred_scores embeds,
    flatten_preds reg_max nc feats = ok (pred_distri, pred_scores) /\
    flatten_embeds pred_embeds = ok embeds /\
    forall l i y x,
      (l < length feats)%nat -> (i < b)%nat ->
      (y < fst (nth l dims (0, 0))%nat)%nat -> (x < snd (nth l dims (0, 0))%nat)%nat ->
      (forall k, (k < reg_max * 4)%nat ->
         nth k (nth (level_offset dims l + (y * snd (nth l dims (0, 0))%nat + x))%nat
                    (nth i pred_distri []) []) 0
         = nth x (nth y (nth k (nth i (nth l feats []) []) []) []) 0) /\
      (forall c, (c < nc)%nat ->
         nth c (nth (level_offset dims l + (y * snd (nth l dims (0, 0))%nat + x))%nat
                    (nth i pred_scores []) []) 0
         = nth x (nth y (nth (reg_max * 4 + c) (nth i (nth l feats []) []) []) []) 0) /\
      (forall e, (e < E)%nat ->
         nth e (nth (level_offset dims l + (y * snd (nth l dims (0, 0))%nat + x))%nat
                    (nth i embeds []) []) 0
         = nth x (nth y (nth e (nth i (nth l pred_embeds []) []) []) []) 0).
Proof.
  intros Hne Hlen Hlen' Hshapes.
  destruct (@cat_view_nth b (reg_max * 4 + nc) dims feats Hne Hlen)
    as (t & Hrun & Hshape & Hcell); [intros l Hl; now apply Hshapes|].
  destruct (@cat_view_nth b E dims pred_embeds) as (te & Hrune & Hshapee & Hcelle).
  { intros ->. destruct feats; [contradiction|discriminate]. }
  { congruence. }
  { intros l Hl. rewrite Hlen' in Hl. now apply Hshapes. }
  unfold flatten_preds, flatten_embeds. rewrite Hrun, Hrune. cbn [bind ok].
  unfold split_dim1. rewrite (forallb_channels Hshape). cbn [bind ok fst snd].
  eexists _, _, _. split; [reflexivity|]. split; [reflexivity|].
  intros l i y x Hl Hi Hy Hx.
  set (p := (level_offset dims l + (y * snd (nth l dims (0, 0))%nat + x))%nat).
  pose proof (shaped_nth Hshape Hi) as Hti.
  pose proof (shaped_nth Hshapee Hi) as Htei.
  assert (Hb : length t = b) by apply Hshape.
  assert (Hbe : length te = b) by apply Hshapee.
  split; [|split].
  - intros k Hk.
    destruct (Hcell l i 0%nat y x) as [Hp0 _]; try assumption; [lia|].
    destruct (Hcell l i k y x) as [_ Hpk]; try assumption; [lia|].
    rewrite nth_permute_021.
    + rewrite (nth_map_default _ _ []) by lia.
      rewrite nth_firstn. destruct (Nat.ltb_spec k (reg_max * 4)) as [_|?]; [|lia].
      exact Hpk.
    + rewrite length_map. lia.
    + rewrite (nth_map_default _ _ []) by lia. rewrite length_firstn. lia.
    + rewrite (nth_map_default _ _ []) by lia.
      rewrite nth_firstn. destruct (Nat.ltb_spec 0 (reg_max * 4)) as [_|?]; [|lia].
      exact Hp0.
  - intros c Hc.
    destruct (Hcell l i (reg_max * 4 + 0)%nat y x) as [Hp0 _]; try assumption; [lia|].
    destruct (Hcell l i (reg_max * 4 + c)%nat y x) as [_ Hpc]; try assumption; [lia|].
    rewrite nth_permute_021.
    + rewrite (nth_map_default _ _ []) by lia. rewrite nth_skipn. exact Hpc.
    + rewrite length_map. lia.
    + rewrite (nth_map_default _ _ []) by lia. rewrite length_skipn. lia.
    + rewrite (nth_map_default _ _ []) by lia. rewrite nth_skipn. exact Hp0.
  - intros e He.
    destruct (Hcelle l i 0%nat y x) as [Hp0 _]; try assumption; try lia.
    destruct (Hcelle l i e y x) as [_ Hpe]; try assumption; try lia.
    rewrite nth_permute_021; try lia; assumption.
Qed.

Example flatten_preds_ex :
  flatten_preds 1 1 ex_feats
  = ok ([[[1; 3; 5; 7]; [2; 4; 6; 8]; [11; 12; 13; 14]]], [[[9]; [10]; [15]]]) /\
  flatten_embeds ex_embed_levels = ok [[[21]; [22]; [23]]].
Proof. split; reflexivity. Qed.

Lemma flatten_layout_witness :
  exists pred_distri pred_scores embeds,
    flatten_preds 1 1 ex_feats = ok (pred_distri, pred_scores) /\
    flatten_embeds ex_embed_levels = ok embeds /\
    nth 0 (nth 2 (nth 0 pred_scores []) []) 0 = 15 /\
    nth 0 (nth 2 (nth 0 embeds []) []) 0 = 23.
Proof.
  destruct (@flatten_layout 1 1 1 1 ex_dims ex_feats ex_embed_levels)
    as (pd & ps & pe & Hp & He & Hcell).
  - discriminate.
  - reflexivity.
  - reflexivity.
  - intros l Hl. destruct l as [|[|l]]; [| |simpl in Hl; lia];
      (split; (split; [reflexivity|repeat constructor])).
  - exists pd, ps, pe. split; [exact Hp|]. split; [exact He|].
    destruct (Hcell 1%nat 0%nat 0%nat 0%nat) as (_ & Hs & Hemb);
      try (simpl; lia).
    split; [exact (Hs 0%nat ltac:(lia))|exact (Hemb 0%nat ltac:(lia))].
Defined.
